(** * Verification of the pimoroni-pico motor driver (drivers/motor/motor.cpp)

    The driver controls one DC motor through two PWM outputs.  This file
    embeds [Motor::calculate_pwm_factors], [Motor::update_pwm],
    [Motor::set_frequency], [Motor::init] and the small mutators of
    [motor.cpp] and proves properties of the frequency quantiser and of
    the decay-mode level mapping.

    Conventions of the embedding:
    - [uint16_t], [uint32_t] and [int32_t] values are [Z] with the
      wrap-around of every conversion written out;
    - [float] is IEEE-754 binary32, round to nearest even, given by the
      parameterised specification [SpecFloat] of the standard library at
      precision 24 and maximal exponent 128;
    - the PWM/GPIO peripheral is a log of the SDK calls the driver makes,
      in the order it makes them. *)

From Stdlib Require Import ZArith QArith Qabs Qround Bool List Lia.
From Stdlib Require Import Floats.SpecFloat.
Import ListNotations.

Local Open Scope Z_scope.

(** ** Fixed-width integers *)

Definition to_uint16 (z : Z) : Z := z mod 2 ^ 16.
Definition to_uint32 (z : Z) : Z := z mod 2 ^ 32.
Definition to_uint8 (z : Z) : Z := z mod 2 ^ 8.

Definition is_uint16 (z : Z) : bool := (0 <=? z) && (z <? 2 ^ 16).

(** ** Binary32 floating point *)

Module Float32.

Definition prec : Z := 24.
Definition emax : Z := 128.

Definition float := spec_float.

(** A well-formed binary32 datum: the mantissa/exponent pair of a finite
    number is the canonical one. *)
Definition valid (x : float) : bool := valid_binary prec emax x.

Definition mul (x y : float) : float := SFmul prec emax x y.
Definition div (x y : float) : float := SFdiv prec emax x y.
Definition leb (x y : float) : bool := SFleb x y.
Definition ltb (x y : float) : bool := SFltb x y.

(** C's [x >= y] on floats is [y <= x]; both are false on a NaN. *)
Definition geb (x y : float) : bool := SFleb y x.

(** Conversion of an integer to [float] (round to nearest even). *)
Definition of_Z (z : Z) : float := binary_normalize prec emax z 0 false.

Definition zero : float := S754_zero false.
Definition one : float := of_Z 1.
Definition minus_one : float := of_Z (-1).

(** Integer part of a float, rounding toward zero.  Infinities and NaN
    have none. *)
Definition trunc (x : float) : option Z :=
  match x with
  | S754_zero _ => Some 0
  | S754_finite s m e =>
      let a := match e with
               | Zneg k => Z.pos m / 2 ^ Z.pos k
               | _ => Z.pos m * 2 ^ e
               end in
      Some (if s then - a else a)
  | _ => None
  end.

(** [(int32_t)x].  ISO C leaves the conversion undefined when the integer
    part does not fit; the Cortex-M0+ run-time saturates and maps NaN to
    0, which is what is written here. *)
Definition to_int32 (x : float) : Z :=
  match x with
  | S754_nan => 0
  | S754_infinity s => if s then - 2 ^ 31 else 2 ^ 31 - 1
  | _ => match trunc x with
         | Some z => Z.max (- 2 ^ 31) (Z.min (2 ^ 31 - 1) z)
         | None => 0
         end
  end.

(** [(uint32_t)x], with the same convention. *)
Definition to_uint32 (x : float) : Z :=
  match x with
  | S754_nan => 0
  | S754_infinity s => if s then 0 else 2 ^ 32 - 1
  | _ => match trunc x with
         | Some z => Z.max 0 (Z.min (2 ^ 32 - 1) z)
         | None => 0
         end
  end.

(** The rational number a finite float denotes, [m * 2 ^ e] with its sign
    (0 for the others). *)
Definition to_Q (x : float) : Q :=
  match x with
  | S754_finite s m e =>
      let n := if s then Z.neg m else Z.pos m in
      match e with
      | Zneg k => n # (2 ^ k)%positive
      | _ => inject_Z (n * 2 ^ e)
      end
  | _ => 0%Q
  end.

(** [std::min] and [std::max] of <algorithm>: [max a b = (a < b) ? b : a]
    and [min a b = (b < a) ? b : a]. *)
Definition fmax (a b : float) : float := if ltb a b then b else a.
Definition fmin (a b : float) : float := if ltb b a then b else a.

End Float32.


(** ** The PWM and GPIO peripheral

    The pico-sdk functions the driver calls are not part of the repository;
    each call is recorded with the arguments it receives, after their
    conversion to the parameter type. *)

Inductive gpio_function := GPIO_FUNC_PWM | GPIO_FUNC_NULL.

(** [pwm_config] of the SDK: the three register images it carries. *)
Record pwm_config := { cfg_csr : Z; cfg_div : Z; cfg_top : Z }.

Inductive hw_call :=
| gpio_set_function_call (gpio : Z) (fn : gpio_function)
| pwm_init_call (slice_num : Z) (cfg : pwm_config) (start : bool)
| pwm_set_clkdiv_int_frac_call (slice_num : Z) (integer : Z) (fract : Z)
| pwm_set_wrap_call (slice_num : Z) (wrap : Z)
| pwm_set_gpio_level_call (gpio : Z) (level : Z).

(** [pwm_gpio_to_slice_num] of the SDK: [(gpio >> 1u) & 7u]. *)
Definition pwm_gpio_to_slice_num (gpio : Z) : Z := Z.land (Z.shiftr gpio 1) 7.

(** [pwm_get_default_config]: free running, divider 1.0, wrap 0xffff. *)
Definition pwm_get_default_config : pwm_config :=
  {| cfg_csr := 0; cfg_div := Z.shiftl 1 4; cfg_top := 65535 |}.

Definition pwm_config_set_wrap (c : pwm_config) (wrap : Z) : pwm_config :=
  {| cfg_csr := cfg_csr c; cfg_div := cfg_div c; cfg_top := to_uint16 wrap |}.

(** [pwm_config_set_clkdiv(c, div)] stores [(uint32_t)(div * 16.0f)]. *)
Definition pwm_config_set_clkdiv (c : pwm_config) (d : Float32.float) : pwm_config :=
  {| cfg_csr := cfg_csr c;
     cfg_div := Float32.to_uint32 (Float32.mul d (Float32.of_Z 16));
     cfg_top := cfg_top c |}.

(** ** The motor object *)

(** Modelled from the spec: [Motor::DecayMode] is declared in motor.hpp,
    which is not among the sources.  The spec names its two enumerators,
    SLOW_DECAY and FAST_DECAY; a C++ enumeration object is an integer, so
    the mode is kept as the integer the object holds.  The two numeric
    values are only required to differ. *)
Definition DecayMode := Z.
Definition FAST_DECAY : DecayMode := 0.
Definition SLOW_DECAY : DecayMode := 1.

(** Modelled from the spec: [MAX_PWM_PERIOD] is declared in motor.hpp; the
    spec gives the value 65535 (the width of the wrap register). *)
Definition MAX_PWM_PERIOD : Z := 65535.

Record Motor := {
  pin_pos : Z;
  pin_neg : Z;
  pwm_cfg : pwm_config;
  pwm_period : Z;
  pwm_frequency : Float32.float;
  motor_decay_mode : DecayMode;
  motor_speed : Float32.float
}.

Definition set_pwm_cfg (c : pwm_config) (m : Motor) : Motor :=
  {| pin_pos := pin_pos m; pin_neg := pin_neg m; pwm_cfg := c;
     pwm_period := pwm_period m; pwm_frequency := pwm_frequency m;
     motor_decay_mode := motor_decay_mode m; motor_speed := motor_speed m |}.

Definition set_pwm_period (p : Z) (m : Motor) : Motor :=
  {| pin_pos := pin_pos m; pin_neg := pin_neg m; pwm_cfg := pwm_cfg m;
     pwm_period := p; pwm_frequency := pwm_frequency m;
     motor_decay_mode := motor_decay_mode m; motor_speed := motor_speed m |}.

Definition set_pwm_frequency (f : Float32.float) (m : Motor) : Motor :=
  {| pin_pos := pin_pos m; pin_neg := pin_neg m; pwm_cfg := pwm_cfg m;
     pwm_period := pwm_period m; pwm_frequency := f;
     motor_decay_mode := motor_decay_mode m; motor_speed := motor_speed m |}.

Definition set_motor_decay_mode (d : DecayMode) (m : Motor) : Motor :=
  {| pin_pos := pin_pos m; pin_neg := pin_neg m; pwm_cfg := pwm_cfg m;
     pwm_period := pwm_period m; pwm_frequency := pwm_frequency m;
     motor_decay_mode := d; motor_speed := motor_speed m |}.

Definition set_motor_speed (v : Float32.float) (m : Motor) : Motor :=
  {| pin_pos := pin_pos m; pin_neg := pin_neg m; pwm_cfg := pwm_cfg m;
     pwm_period := pwm_period m; pwm_frequency := pwm_frequency m;
     motor_decay_mode := motor_decay_mode m; motor_speed := v |}.

(** What a method runs against: the object, the system clock it can read
    and the calls made to the peripheral so far (oldest first). *)
Record World := {
  this : Motor;
  clk_sys_hz : Z;
  hw_log : list hw_call
}.

(** *** A state monad over [World] *)

Definition M (A : Type) : Type := World -> A * World.

Definition ret {A} (a : A) : M A := fun w => (a, w).

Definition bind {A B} (c : M A) (k : A -> M B) : M B :=
  fun w => let (a, w') := c w in k a w'.

Declare Scope motor_scope.
Delimit Scope motor_scope with motor.
Notation "x <- c ;; k" := (bind c (fun x => k))
  (at level 61, c at next level, right associativity) : motor_scope.
Notation "c ;; k" := (bind c (fun _ => k))
  (at level 61, right associativity) : motor_scope.
Local Open Scope motor_scope.

Definition get_this : M Motor := fun w => (this w, w).

Definition modify_this (f : Motor -> Motor) : M unit :=
  fun w => (tt, {| this := f (this w); clk_sys_hz := clk_sys_hz w; hw_log := hw_log w |}).

Definition clock_get_hz : M Z := fun w => (clk_sys_hz w, w).

Definition hw (c : hw_call) : M unit :=
  fun w => (tt, {| this := this w; clk_sys_hz := clk_sys_hz w; hw_log := hw_log w ++ [c] |}).

Definition when (b : bool) (c : M unit) : M unit := if b then c else ret tt.

(** The SDK calls, with the conversions of their parameter types. *)
Definition gpio_set_function (gpio : Z) (fn : gpio_function) : M unit :=
  hw (gpio_set_function_call gpio fn).
Definition pwm_init (slice_num : Z) (c : pwm_config) (start : bool) : M unit :=
  hw (pwm_init_call slice_num c start).
Definition pwm_set_clkdiv_int_frac (slice_num integer fract : Z) : M unit :=
  hw (pwm_set_clkdiv_int_frac_call slice_num (to_uint8 integer) (to_uint8 fract)).
Definition pwm_set_wrap (slice_num wrap : Z) : M unit :=
  hw (pwm_set_wrap_call slice_num (to_uint16 wrap)).
Definition pwm_set_gpio_level (gpio level : Z) : M unit :=
  hw (pwm_set_gpio_level_call gpio (to_uint16 level)).

(** ** The methods of [Motor] *)

(** *** [Motor::calculate_pwm_factors] *)

(** The conditions of the three [if]s of the loop body. *)
Definition gate5 (div16 period : Z) : bool :=
  (Z.shiftl 5 4 <=? div16) && (div16 mod 5 =? 0) && (period * 5 <? MAX_PWM_PERIOD).
Definition gate3 (div16 period : Z) : bool :=
  (Z.shiftl 3 4 <=? div16) && (div16 mod 3 =? 0) && (period * 3 <? MAX_PWM_PERIOD).
Definition gate2 (div16 period : Z) : bool :=
  (Z.shiftl 2 4 <=? div16) && (period * 2 <=? MAX_PWM_PERIOD).

(** One pass through the body of [while(true)]: [Some] of the new
    [(div16, period)] when one of the three branches fires, [None] for
    [break].  [period * p] is computed in [int], the assignment
    [period *= p] converts back to [uint16_t]. *)
Definition factor_step (div16 period : Z) : option (Z * Z) :=
  if gate5 div16 period then Some (div16 / 5, to_uint16 (period * 5))
  else if gate3 div16 period then Some (div16 / 3, to_uint16 (period * 3))
  else if gate2 div16 period then Some (div16 / 2, to_uint16 (period * 2))
  else None.

(** The loop, cut off after [fuel] passes: [None] only when the cut-off is
    reached before [break]. *)
Fixpoint factor_loop (fuel : nat) (div16 period : Z) : option (Z * Z) :=
  match fuel with
  | O => None
  | S fuel' =>
      match factor_step div16 period with
      | Some (div16', period') => factor_loop fuel' div16' period'
      | None => Some (div16, period)
      end
  end.

(** The same loop as a transition system, for the statements about its
    runs: [factor_run n s s'] is a run of [n] passes that fire. *)
Inductive factor_run : nat -> Z * Z -> Z * Z -> Prop :=
| factor_run_stop : forall s, factor_run 0 s s
| factor_run_step : forall n d p d' p' s,
    factor_step d p = Some (d', p') ->
    factor_run n (d', p') s ->
    factor_run (S n) (d, p) s.

(** Passes allowed to the loop inside [calculate_pwm_factors]; the period
    starts at 1, at least doubles on each pass and stays below [2 ^ 16], so
    the bound is never reached ([factor_loop_enough] below). *)
Definition loop_fuel : nat := 16.

(** The guard [(freq >= 1.0f) && (freq <= (float)(source_hz >> 1))]. *)
Definition frequency_valid (source_hz : Z) (freq : Float32.float) : bool :=
  Float32.geb freq Float32.one
  && Float32.leb freq (Float32.of_Z (Z.shiftr source_hz 1)).

(** The initialiser [(uint32_t)((float)(source_hz << 4) / freq)]; the shift
    is a [uint32_t] shift. *)
Definition initial_div16 (source_hz : Z) (freq : Float32.float) : Z :=
  Float32.to_uint32
    (Float32.div (Float32.of_Z (to_uint32 (Z.shiftl source_hz 4))) freq).

(** [source_hz] is the value [clock_get_hz(clk_sys)] returned.  The result
    is [Some (period_out, div16_out)] when the function returns [true] and
    [None] when it returns [false] (the two outputs are then not written). *)
Definition calculate_pwm_factors (source_hz : Z) (freq : Float32.float)
  : option (Z * Z) :=
  if frequency_valid source_hz freq then
    let div16 := initial_div16 source_hz freq in
    match factor_loop loop_fuel div16 1 with
    | Some (div16', period) =>
        if (16 <=? div16') && (div16' <? Z.shiftl 256 4)
        then Some (to_uint16 period, to_uint16 div16')
        else None
    | None => None
    end
  else None.

(** *** [Motor::update_pwm] *)

Definition signed_duty_cycle_of (speed : Float32.float) (period : Z) : Z :=
  Float32.to_int32 (Float32.mul speed (Float32.of_Z period)).

Definition update_pwm : M unit :=
  m <- get_this ;;
  let signed_duty_cycle := signed_duty_cycle_of (motor_speed m) (pwm_period m) in
  if motor_decay_mode m =? SLOW_DECAY then
    (* case SLOW_DECAY *)
    if signed_duty_cycle >=? 0 then
      pwm_set_gpio_level (pin_pos m) (pwm_period m) ;;
      pwm_set_gpio_level (pin_neg m) (pwm_period m - signed_duty_cycle)
    else
      pwm_set_gpio_level (pin_pos m) (pwm_period m + signed_duty_cycle) ;;
      pwm_set_gpio_level (pin_neg m) (pwm_period m)
  else
    (* case FAST_DECAY: default: *)
    if signed_duty_cycle >=? 0 then
      pwm_set_gpio_level (pin_pos m) signed_duty_cycle ;;
      pwm_set_gpio_level (pin_neg m) 0
    else
      pwm_set_gpio_level (pin_pos m) 0 ;;
      pwm_set_gpio_level (pin_neg m) (0 - signed_duty_cycle).

(** *** Constructor and destructor *)

(** The constructor stores its four arguments.  The other members are
    declared in motor.hpp: the specification has the speed start at 0;
    [pwm_period] and [pwm_cfg] are not set before [init], and no statement
    below depends on the values they are given here. *)
Definition Motor_new (pin_pos pin_neg : Z) (freq : Float32.float) (mode : DecayMode)
  : Motor :=
  {| pin_pos := pin_pos; pin_neg := pin_neg;
     pwm_cfg := pwm_get_default_config; pwm_period := 0;
     pwm_frequency := freq; motor_decay_mode := mode;
     motor_speed := Float32.zero |}.

Definition Motor_delete : M unit :=
  m <- get_this ;;
  gpio_set_function (pin_pos m) GPIO_FUNC_NULL ;;
  gpio_set_function (pin_neg m) GPIO_FUNC_NULL.

(** *** [Motor::init] *)

Definition init : M bool :=
  m <- get_this ;;
  source_hz <- clock_get_hz ;;
  match calculate_pwm_factors source_hz (pwm_frequency m) with
  | Some (period, div16) =>
      modify_this (set_pwm_period period) ;;
      let cfg := pwm_get_default_config in
      let cfg := pwm_config_set_wrap cfg (period - 1) in
      let cfg := pwm_config_set_clkdiv cfg
                   (Float32.div (Float32.of_Z div16) (Float32.of_Z 16)) in
      modify_this (set_pwm_cfg cfg) ;;
      pwm_init (pwm_gpio_to_slice_num (pin_pos m)) cfg true ;;
      gpio_set_function (pin_pos m) GPIO_FUNC_PWM ;;
      pwm_init (pwm_gpio_to_slice_num (pin_neg m)) cfg true ;;
      gpio_set_function (pin_neg m) GPIO_FUNC_PWM ;;
      update_pwm ;;
      ret true
  | None => ret false
  end.

(** *** Speed, frequency and decay mode *)

Definition get_speed : M Float32.float :=
  m <- get_this ;; ret (motor_speed m).

Definition set_speed (speed : Float32.float) : M unit :=
  modify_this
    (set_motor_speed
       (Float32.fmin (Float32.fmax speed Float32.minus_one) Float32.one)) ;;
  update_pwm.

Definition get_frequency : M Float32.float :=
  m <- get_this ;; ret (pwm_frequency m).

Definition set_frequency (freq : Float32.float) : M bool :=
  source_hz <- clock_get_hz ;;
  match calculate_pwm_factors source_hz freq with
  | Some (period, div16) =>
      m <- get_this ;;
      let pre_update_pwm := period >? pwm_period m in
      modify_this (set_pwm_period period) ;;
      modify_this (set_pwm_frequency freq) ;;
      let pos_num := pwm_gpio_to_slice_num (pin_pos m) in
      let neg_num := pwm_gpio_to_slice_num (pin_neg m) in
      let div := to_uint8 (Z.shiftr div16 4) in
      let mod' := to_uint8 (div16 mod 16) in
      pwm_set_clkdiv_int_frac pos_num div mod' ;;
      when (negb (neg_num =? pos_num)) (pwm_set_clkdiv_int_frac neg_num div mod') ;;
      when pre_update_pwm update_pwm ;;
      m' <- get_this ;;
      pwm_set_wrap pos_num (pwm_period m' - 1) ;;
      when (negb (neg_num =? pos_num)) (pwm_set_wrap neg_num (pwm_period m' - 1)) ;;
      when (negb pre_update_pwm) update_pwm ;;
      ret true
  | None => ret false
  end.

Definition get_decay_mode : M DecayMode :=
  m <- get_this ;; ret (motor_decay_mode m).

Definition set_decay_mode (mode : DecayMode) : M unit :=
  modify_this (set_motor_decay_mode mode) ;;
  update_pwm.

Definition stop : M unit :=
  modify_this (set_motor_speed Float32.zero) ;;
  update_pwm.

Definition disable : M unit :=
  m <- get_this ;;
  modify_this (set_motor_speed Float32.zero) ;;
  pwm_set_gpio_level (pin_pos m) 0 ;;
  pwm_set_gpio_level (pin_neg m) 0.

(** ** Definitions for the statements *)

(** *** Views of a run *)

(** World after running a method, and the calls the method added to the
    log. *)
Definition after {A} (c : M A) (w : World) : World := snd (c w).

Definition calls_of {A} (c : M A) (w : World) : list hw_call :=
  skipn (length (hw_log w)) (hw_log (snd (c w))).

Definition with_log (w : World) (l : list hw_call) : World :=
  {| this := this w; clk_sys_hz := clk_sys_hz w; hw_log := l |}.

(** The pair (positive, negative) of levels [update_pwm] writes for the
    object [m]. *)
Definition levels_of (m : Motor) : Z * Z :=
  match calls_of update_pwm {| this := m; clk_sys_hz := 0; hw_log := [] |} with
  | [pwm_set_gpio_level_call _ a; pwm_set_gpio_level_call _ b] => (a, b)
  | _ => (0, 0)
  end.

(** The two [pwm_set_gpio_level] calls of one [update_pwm], positive pin
    first. *)
Definition level_writes (m : Motor) (levels : Z * Z) : list hw_call :=
  [pwm_set_gpio_level_call (pin_pos m) (fst levels);
   pwm_set_gpio_level_call (pin_neg m) (snd levels)].

(** The divider and wrap writes of [set_frequency]: one per slice, the
    slice of the positive pin first, the other only when it differs. *)
Definition clkdiv_writes (m : Motor) (div16 : Z) : list hw_call :=
  let pos_num := pwm_gpio_to_slice_num (pin_pos m) in
  let neg_num := pwm_gpio_to_slice_num (pin_neg m) in
  let div := to_uint8 (to_uint8 (Z.shiftr div16 4)) in
  let mod' := to_uint8 (to_uint8 (div16 mod 16)) in
  pwm_set_clkdiv_int_frac_call pos_num div mod'
  :: (if neg_num =? pos_num then []
      else [pwm_set_clkdiv_int_frac_call neg_num div mod']).

Definition wrap_writes (m : Motor) (period : Z) : list hw_call :=
  let pos_num := pwm_gpio_to_slice_num (pin_pos m) in
  let neg_num := pwm_gpio_to_slice_num (pin_neg m) in
  pwm_set_wrap_call pos_num (to_uint16 (period - 1))
  :: (if neg_num =? pos_num then []
      else [pwm_set_wrap_call neg_num (to_uint16 (period - 1))]).

Definition is_level_write (c : hw_call) : bool :=
  match c with pwm_set_gpio_level_call _ _ => true | _ => false end.

Definition is_wrap_write (c : hw_call) : bool :=
  match c with pwm_set_wrap_call _ _ => true | _ => false end.

Definition is_clkdiv_write (c : hw_call) : bool :=
  match c with pwm_set_clkdiv_int_frac_call _ _ _ => true | _ => false end.

(** In the log [l] every call satisfying [P] comes before every call
    satisfying [Q]: once a [Q] call is seen no [P] call follows. *)
Fixpoint all_before (P Q : hw_call -> bool) (l : list hw_call) : bool :=
  match l with
  | [] => true
  | x :: r =>
      (if Q x then forallb (fun y => negb (P y)) r else true) && all_before P Q r
  end.

(** The loop entered with divider [d0] and period 1 leaves through
    [break] in state [r]. *)
Definition loop_exit (d0 : Z) (r : Z * Z) : Prop :=
  exists n, factor_run n (d0, 1) r /\ factor_step (fst r) (snd r) = None.

(** *** Speeds *)

Definition is_nan (x : Float32.float) : bool :=
  match x with S754_nan => true | _ => false end.

(** The value [set_speed] stores for the argument [speed]. *)
Definition clamp_speed (speed : Float32.float) : Float32.float :=
  Float32.fmin (Float32.fmax speed Float32.minus_one) Float32.one.

(** A stored speed as [set_speed] leaves it: a well-formed float in
    [[-1.0, 1.0]] (so not a NaN). *)
Definition speed_in_range (v : Float32.float) : bool :=
  Float32.valid v && Float32.leb Float32.minus_one v && Float32.leb v Float32.one.

(** C's [speed >= 0], [speed < 0] and [speed > 0]. *)
Definition speed_nonneg (v : Float32.float) : bool := Float32.geb v Float32.zero.
Definition speed_neg (v : Float32.float) : bool := Float32.ltb v Float32.zero.
Definition speed_pos (v : Float32.float) : bool := Float32.ltb Float32.zero v.

(** Integer part of the magnitude of the exact product [speed * period]. *)
Definition exact_magnitude (speed : Float32.float) (period : Z) : Z :=
  Qfloor (Qabs (Float32.to_Q speed * inject_Z period)).

(** [f] holds on the [n] integers from [lo] on. *)
Fixpoint Zforall_range (f : Z -> bool) (lo : Z) (n : nat) : bool :=
  match n with
  | O => true
  | S n' => f lo && Zforall_range f (lo + 1) n'
  end.

(** [(float)pwm_period] is exact: a positive mantissa [m] and a negative
    exponent [e] with [m * 2 ^ e = p]. *)
Definition period_float_ok (p : Z) : bool :=
  match Float32.of_Z p with
  | S754_finite false m e => (e <? 0) && (Z.pos m =? p * 2 ^ (- e))
  | _ => false
  end.

(** *** The specification's wording

    Section 4.3 of the specification gives the pair of levels that belongs
    to a duty cycle, by decay mode and sign of the speed. *)
Definition decay_levels (mode : DecayMode) (nonneg : bool) (period dutyCycle : Z)
  : Z * Z :=
  if mode =? FAST_DECAY then
    if nonneg then (dutyCycle, 0) else (0, - dutyCycle)
  else
    if nonneg then (period, period - dutyCycle) else (period + dutyCycle, period).

(** Rounding of a rational to the nearest integer, halves away from zero. *)
Definition Qround_nearest (q : Q) : Z :=
  if Qle_bool 0 q then Qfloor (q + (1 # 2)) else Qceiling (q - (1 # 2)).

(** [dutyCycle = round(speed * period)] as the specification words it, on
    the exact product. *)
Definition spec_duty_cycle (speed : Float32.float) (period : Z) : Z :=
  Qround_nearest (Float32.to_Q speed * inject_Z period).

Definition spec_levels (m : Motor) : Z * Z :=
  decay_levels (motor_decay_mode m) (speed_nonneg (motor_speed m)) (pwm_period m)
    (spec_duty_cycle (motor_speed m) (pwm_period m)).

(** The frequency range as the specification words it: the real interval
    [[1.0, systemClockHz / 2]]. *)
Definition spec_frequency_in_range (clk : Z) (f : Float32.float) : bool :=
  match f with
  | S754_finite _ _ _ | S754_zero _ =>
      Qle_bool 1 (Float32.to_Q f) && Qle_bool (Float32.to_Q f) (clk # 2)
  | _ => false
  end.

(** *** Set-ups of the examples *)

(** The RP2040 runs its system clock at 125 MHz; the examples drive pins 0
    and 1 (one slice) from the 25 kHz the driver documents as default. *)
Definition pico_clock : Z := 125000000.

Definition boot (mode : DecayMode) : World :=
  {| this := Motor_new 0 1 (Float32.of_Z 25000) mode;
     clk_sys_hz := pico_clock;
     hw_log := [] |}.

(** The float [a / b]. *)
Definition ratio (a b : Z) : Float32.float :=
  Float32.div (Float32.of_Z a) (Float32.of_Z b).

(** *** Shapes of periods *)

(** A period built from the primes the loop tries. *)
Definition smooth235 (p : Z) : Prop :=
  exists a b c : nat, p = 2 ^ Z.of_nat a * 3 ^ Z.of_nat b * 5 ^ Z.of_nat c.

(** *** The registers behind the calls

    What the recorded SDK calls do to the PWM block: per slice a wrap
    register ([TOP]) and a 8.4 divider ([DIV]), and per slice and channel a
    level ([CC]).  A channel is fully on when its level exceeds the wrap
    value of its slice (the counter runs from 0 to the wrap value and the
    output is high while the counter is below the level). *)

(** [pwm_gpio_to_channel] of the SDK: [gpio & 1u]. *)
Definition pwm_gpio_to_channel (gpio : Z) : Z := Z.land gpio 1.

Record pwm_regs := {
  reg_top : Z -> Z;
  reg_div : Z -> Z;
  reg_cc : Z -> Z -> Z
}.

Definition regs_reset : pwm_regs :=
  {| reg_top := fun _ => 65535; reg_div := fun _ => 16; reg_cc := fun _ _ => 0 |}.

(** One call.  [pwm_init] clears both levels of the slice and loads wrap
    and divider from the configuration; [gpio_set_function] is outside the
    PWM block. *)
Definition apply_call (r : pwm_regs) (c : hw_call) : pwm_regs :=
  match c with
  | gpio_set_function_call _ _ => r
  | pwm_init_call s cfg _ =>
      {| reg_top := fun x => if x =? s then cfg_top cfg else reg_top r x;
         reg_div := fun x => if x =? s then cfg_div cfg else reg_div r x;
         reg_cc := fun x ch => if x =? s then 0 else reg_cc r x ch |}
  | pwm_set_clkdiv_int_frac_call s i f =>
      {| reg_top := reg_top r;
         reg_div := fun x => if x =? s then Z.lor (Z.shiftl i 4) f else reg_div r x;
         reg_cc := reg_cc r |}
  | pwm_set_wrap_call s v =>
      {| reg_top := fun x => if x =? s then v else reg_top r x;
         reg_div := reg_div r;
         reg_cc := reg_cc r |}
  | pwm_set_gpio_level_call g v =>
      {| reg_top := reg_top r;
         reg_div := reg_div r;
         reg_cc := fun x ch =>
           if (x =? pwm_gpio_to_slice_num g) && (ch =? pwm_gpio_to_channel g)
           then v else reg_cc r x ch |}
  end.

Definition apply_calls (r : pwm_regs) (calls : list hw_call) : pwm_regs :=
  fold_left apply_call calls r.

(** Registers of a world whose log starts at reset. *)
Definition regs_of (w : World) : pwm_regs := apply_calls regs_reset (hw_log w).

(** [P] holds of the registers before the first call and after each
    call. *)
Fixpoint throughout (P : pwm_regs -> Prop) (r : pwm_regs) (calls : list hw_call)
  : Prop :=
  P r /\ match calls with
         | [] => True
         | c :: cs => throughout P (apply_call r c) cs
         end.

Definition top_of (r : pwm_regs) (gpio : Z) : Z :=
  reg_top r (pwm_gpio_to_slice_num gpio).
Definition div_of (r : pwm_regs) (gpio : Z) : Z :=
  reg_div r (pwm_gpio_to_slice_num gpio).
Definition level_of (r : pwm_regs) (gpio : Z) : Z :=
  reg_cc r (pwm_gpio_to_slice_num gpio) (pwm_gpio_to_channel gpio).

Definition fully_on (gpio : Z) (r : pwm_regs) : Prop :=
  top_of r gpio < level_of r gpio.

(** The two pins drive different channels. *)
Definition channels_distinct (m : Motor) : bool :=
  negb ((pwm_gpio_to_slice_num (pin_pos m) =? pwm_gpio_to_slice_num (pin_neg m))
        && (pwm_gpio_to_channel (pin_pos m) =? pwm_gpio_to_channel (pin_neg m))).

(** Wrap and divider registers of both pins hold the quantisation of the
    stored frequency, and the stored period is that quantisation's. *)
Definition timing_in_sync (w : World) : Prop :=
  let m := this w in
  let r := regs_of w in
  exists div16,
    calculate_pwm_factors (clk_sys_hz w) (pwm_frequency m) = Some (pwm_period m, div16)
    /\ top_of r (pin_pos m) = pwm_period m - 1
    /\ top_of r (pin_neg m) = pwm_period m - 1
    /\ div_of r (pin_pos m) = div16
    /\ div_of r (pin_neg m) = div16.

(** The level registers of the two pins hold what the level mapping gives
    for the stored speed, period and decay mode. *)
Definition levels_in_sync (w : World) : Prop :=
  let m := this w in
  let r := regs_of w in
  level_of r (pin_pos m) = fst (levels_of m)
  /\ level_of r (pin_neg m) = snd (levels_of m).

(** The calls an application makes after [init]. *)
Inductive motor_op :=
| op_set_speed (speed : Float32.float)
| op_set_frequency (freq : Float32.float)
| op_set_decay_mode (mode : DecayMode)
| op_stop
| op_disable.

Definition run_op (o : motor_op) : M unit :=
  match o with
  | op_set_speed v => set_speed v
  | op_set_frequency f => _ <- set_frequency f ;; ret tt
  | op_set_decay_mode d => set_decay_mode d
  | op_stop => stop
  | op_disable => disable
  end.

Fixpoint run_ops (ops : list motor_op) : M unit :=
  match ops with
  | [] => ret tt
  | o :: rest => run_op o ;; run_ops rest
  end.

(** [(float)div16 / 16.0f], the divider [init] configures, is exact and
    comes back as [div16] from [pwm_config_set_clkdiv]. *)
Definition clkdiv_float_ok (d : Z) : bool :=
  let f := Float32.div (Float32.of_Z d) (Float32.of_Z 16) in
  Qeq_bool (Float32.to_Q f) (d # 16)
  && (Float32.to_uint32 (Float32.mul f (Float32.of_Z 16)) =? d).

(** The divider [set_frequency] writes: integer and fractional part as
    passed to [pwm_set_clkdiv_int_frac], and the register value they
    make. *)
Definition div16_split_ok (d : Z) : bool :=
  let i := to_uint8 (to_uint8 (Z.shiftr d 4)) in
  let f := to_uint8 (to_uint8 (d mod 16)) in
  (1 <=? i) && (i <=? 255) && (0 <=? f) && (f <=? 15)
  && (16 * i + f =? d) && (Z.lor (Z.shiftl i 4) f =? d).

(** Whether the level registers mirror the object after a sequence of
    calls, given the clock, the decay mode at the start and whether they
    did before.  [set_speed], [set_decay_mode], [stop] and a successful
    [set_frequency] write the mapped levels; a failing [set_frequency]
    writes nothing; [disable] writes zeros and stores speed 0, for which
    the mapping gives zeros in every mode but SLOW_DECAY. *)
Definition mode_after (o : motor_op) (mode : DecayMode) : DecayMode :=
  match o with
  | op_set_decay_mode d => d
  | _ => mode
  end.

Definition synced_step (clk : Z) (mode : DecayMode) (b : bool) (o : motor_op) : bool :=
  match o with
  | op_disable => negb (mode =? SLOW_DECAY)
  | op_set_frequency f =>
      match calculate_pwm_factors clk f with
      | Some _ => true
      | None => b
      end
  | _ => true
  end.

Fixpoint synced_after (clk : Z) (mode : DecayMode) (b : bool) (ops : list motor_op)
  : bool :=
  match ops with
  | [] => b
  | o :: rest => synced_after clk (mode_after o mode) (synced_step clk mode b o) rest
  end.

(** The configuration [init] builds and the four calls it makes before
    the first level update. *)
Definition init_config (period div16 : Z) : pwm_config :=
  {| cfg_csr := 0; cfg_div := div16; cfg_top := period - 1 |}.

Definition init_setup_calls (m : Motor) (cfg : pwm_config) : list hw_call :=
  [pwm_init_call (pwm_gpio_to_slice_num (pin_pos m)) cfg true;
   gpio_set_function_call (pin_pos m) GPIO_FUNC_PWM;
   pwm_init_call (pwm_gpio_to_slice_num (pin_neg m)) cfg true;
   gpio_set_function_call (pin_neg m) GPIO_FUNC_PWM].

(** One call per slice, as [set_frequency] makes them: the slice of the
    positive pin first, the slice of the negative pin only when it is
    another one. *)
Definition per_slice (m : Motor) (c : Z -> hw_call) : list hw_call :=
  let pos_num := pwm_gpio_to_slice_num (pin_pos m) in
  let neg_num := pwm_gpio_to_slice_num (pin_neg m) in
  c pos_num :: (if neg_num =? pos_num then [] else [c neg_num]).

(** A call that reaches the peripheral only through two level writes,
    positive pin first, and keeps pins, period, frequency, configuration
    and clock. *)
Definition writes_levels_only (c : M unit) (w : World) : Prop :=
  let m := this w in
  let m' := this (after c w) in
  pin_pos m' = pin_pos m /\ pin_neg m' = pin_neg m
  /\ pwm_period m' = pwm_period m /\ pwm_frequency m' = pwm_frequency m
  /\ pwm_cfg m' = pwm_cfg m
  /\ clk_sys_hz (after c w) = clk_sys_hz w
  /\ exists a b, calls_of c w = level_writes m (a, b).

(** The pin whose channel SLOW_DECAY holds fully on: the positive one for
    a speed >= 0, the negative one otherwise. *)
Definition held_pin (m : Motor) : Z :=
  if speed_nonneg (motor_speed m) then pin_pos m else pin_neg m.

(** * Proof steps used throughout *)

(** Positivity of a power of two, and arithmetic against the [uint16_t]
    bound. *)
Ltac pow2_pos := apply Z.pow_pos_nonneg; lia.
Ltac uint16_lia := change (2 ^ 16) with 65536; lia.

(** * Fixed-width integers *)

Lemma to_uint16_id (z : Z) : 0 <= z < 2 ^ 16 -> to_uint16 z = z.
Proof. intros H. unfold to_uint16. apply Z.mod_small. exact H. Qed.

Lemma is_uint16_range (z : Z) : is_uint16 z = true -> 0 <= z < 2 ^ 16.
Proof.
  unfold is_uint16. intros H. apply andb_true_iff in H as [H1 H2].
  apply Z.leb_le in H1. apply Z.ltb_lt in H2. lia.
Qed.

(** * Binary32 rounding *)

Lemma digits2_pos_bounds (m : positive) :
  2 ^ (Z.pos (digits2_pos m) - 1) <= Z.pos m < 2 ^ Z.pos (digits2_pos m).
Proof.
  induction m as [m IH | m IH |]; simpl digits2_pos.
  - rewrite Pos2Z.inj_succ.
    replace (Z.succ (Z.pos (digits2_pos m)) - 1) with (Z.succ (Z.pos (digits2_pos m) - 1)) by lia.
    rewrite !Z.pow_succ_r by lia. lia.
  - rewrite Pos2Z.inj_succ.
    replace (Z.succ (Z.pos (digits2_pos m)) - 1) with (Z.succ (Z.pos (digits2_pos m) - 1)) by lia.
    rewrite !Z.pow_succ_r by lia. lia.
  - simpl. lia.
Qed.

Lemma shr_1_m (mrs : shr_record) :
  0 <= shr_m mrs -> shr_m (shr_1 mrs) = shr_m mrs / 2.
Proof.
  destruct mrs as [m r s]; simpl. intros Hm.
  destruct m as [| [p | p |] | p]; cbn [shr_m]; try lia; try reflexivity.
  - apply Z.div_unique with 1; lia.
  - apply Z.div_unique with 0; lia.
Qed.

Lemma iter_pos_shr_1_m (n : positive) : forall mrs,
  0 <= shr_m mrs ->
  shr_m (iter_pos shr_1 n mrs) = shr_m mrs / 2 ^ Z.pos n.
Proof.
  assert (Hnn : forall mrs, 0 <= shr_m mrs -> 0 <= shr_m (shr_1 mrs)).
  { intros mrs H. rewrite shr_1_m by assumption. apply Z.div_pos; lia. }
  induction n as [n IH | n IH |]; intros mrs Hm; simpl iter_pos.
  - assert (H1 := Hnn _ Hm).
    assert (H2 : 0 <= shr_m (iter_pos shr_1 n (shr_1 mrs))).
    { rewrite IH by assumption. apply Z.div_pos; [assumption | pow2_pos]. }
    rewrite IH by assumption. rewrite IH by assumption. rewrite shr_1_m by assumption.
    rewrite !Z.div_div by (try pow2_pos; lia).
    f_equal. change (Z.pos n~1) with (2 * Z.pos n + 1).
    replace (2 * Z.pos n + 1) with (1 + Z.pos n + Z.pos n) by lia.
    rewrite !Z.pow_add_r by lia. change (2 ^ 1) with 2. lia.
  - assert (H2 : 0 <= shr_m (iter_pos shr_1 n mrs)).
    { rewrite IH by assumption. apply Z.div_pos; [assumption | pow2_pos]. }
    rewrite IH by assumption. rewrite IH by assumption.
    rewrite !Z.div_div by (try pow2_pos; lia).
    f_equal. change (Z.pos n~0) with (2 * Z.pos n).
    replace (2 * Z.pos n) with (Z.pos n + Z.pos n) by lia.
    rewrite !Z.pow_add_r by lia. lia.
  - rewrite shr_1_m by assumption. reflexivity.
Qed.

Lemma shr_record_of_loc_m m l : shr_m (shr_record_of_loc m l) = m.
Proof. destruct l as [| []]; reflexivity. Qed.

Lemma shr_fexp_spec (m e : Z) (l : location) :
  0 <= m ->
  let n := Z.max 0 (fexp Float32.prec Float32.emax (Zdigits2 m + e) - e) in
  shr_m (fst (shr_fexp Float32.prec Float32.emax m e l)) = m / 2 ^ n
  /\ snd (shr_fexp Float32.prec Float32.emax m e l) = e + n.
Proof.
  intros Hm n. unfold shr_fexp, shr. subst n.
  destruct (fexp Float32.prec Float32.emax (Zdigits2 m + e) - e) as [| k | k]; cbn [fst snd].
  - rewrite shr_record_of_loc_m. change (Z.max 0 0) with 0.
    rewrite Z.div_1_r. split; [reflexivity | lia].
  - rewrite iter_pos_shr_1_m by (rewrite shr_record_of_loc_m; assumption).
    rewrite shr_record_of_loc_m. replace (Z.max 0 (Z.pos k)) with (Z.pos k) by lia.
    split; reflexivity.
  - rewrite shr_record_of_loc_m. replace (Z.max 0 (Z.neg k)) with 0 by lia.
    rewrite Z.div_1_r. split; [reflexivity | lia].
Qed.

Lemma round_nearest_even_bounds m l :
  m <= round_nearest_even m l <= m + 1.
Proof.
  unfold round_nearest_even. destruct l as [| []]; try lia.
  destruct (Z.even m); lia.
Qed.

Lemma Zdigits2_bounds (m : Z) :
  0 < m -> 2 ^ (Zdigits2 m - 1) <= m < 2 ^ Zdigits2 m.
Proof.
  destruct m as [| p | p]; try lia. intros _. apply digits2_pos_bounds.
Qed.

Lemma Zdigits2_nonneg m : 0 <= Zdigits2 m.
Proof. destruct m; simpl; lia. Qed.

Lemma Zdigits2_le_of_lt_pow (m k : Z) :
  0 <= m -> 0 <= k -> m < 2 ^ k -> Zdigits2 m <= k.
Proof.
  intros Hm Hk Hlt.
  destruct (Z.eq_dec m 0) as [-> | Hne]; [simpl; lia |].
  destruct (Zdigits2_bounds m ltac:(lia)) as [Hlo _].
  assert (H : 2 ^ (Zdigits2 m - 1) < 2 ^ k) by lia.
  apply Z.pow_lt_mono_r_iff in H; lia.
Qed.

Lemma Zforall_range_spec f n : forall lo z,
  Zforall_range f lo n = true -> lo <= z < lo + Z.of_nat n -> f z = true.
Proof.
  induction n as [| n IH]; intros lo z H Hz.
  - simpl in Hz. lia.
  - simpl in H. apply andb_true_iff in H as [H0 H1].
    destruct (Z.eq_dec z lo) as [-> | Hne]; [assumption |].
    apply (IH (lo + 1)); [assumption | lia].
Qed.

Lemma period_float_all : Zforall_range period_float_ok 1 (Z.to_nat 65535) = true.
Proof. vm_compute. reflexivity. Qed.

Lemma fexp_eq x : fexp Float32.prec Float32.emax x = Z.max (x - 24) (-149).
Proof. reflexivity. Qed.

Lemma round_aux_trunc_le (s : bool) (M : positive) (E p : Z) :
  E < 0 -> 0 <= p < 2 ^ 16 -> Z.pos M <= p * 2 ^ (- E) ->
  exists a, 0 <= a <= p
    /\ Z.pos M / 2 ^ (- E) <= a <= Z.pos M / 2 ^ (- E) + 1
    /\ Float32.trunc (binary_round_aux Float32.prec Float32.emax s (Z.pos M) E loc_Exact)
       = Some (if s then - a else a).
Proof.
  intros HE Hp HM.
  unfold binary_round_aux.
  destruct (shr_fexp_spec (Z.pos M) E loc_Exact ltac:(lia)) as [Hm1 He1].
  destruct (shr_fexp Float32.prec Float32.emax (Z.pos M) E loc_Exact) as [mrs1 e1].
  cbn [fst snd] in Hm1, He1.
  set (n1 := Z.max 0 (fexp Float32.prec Float32.emax (Zdigits2 (Z.pos M) + E) - E)) in *.
  assert (Hn1 : 0 <= n1) by (subst n1; lia).
  (* the exact product is below 2 ^ (16 - E) *)
  assert (HpowE : 0 < 2 ^ (- E)) by pow2_pos.
  assert (HMlt : Z.pos M < 2 ^ (16 - E)).
  { replace (16 - E) with (16 + - E) by lia. rewrite Z.pow_add_r by lia. nia. }
  assert (HdM : Zdigits2 (Z.pos M) <= 16 - E).
  { apply Zdigits2_le_of_lt_pow; lia. }
  assert (He1neg : e1 < 0).
  { rewrite He1. subst n1. rewrite fexp_eq. lia. }
  set (m1 := round_nearest_even (shr_m mrs1) (loc_of_shr_record mrs1)).
  assert (Hm1b := round_nearest_even_bounds (shr_m mrs1) (loc_of_shr_record mrs1)).
  fold m1 in Hm1b.
  assert (Hpow1 : 0 < 2 ^ n1) by pow2_pos.
  assert (Hq0 : 0 <= shr_m mrs1) by (rewrite Hm1; apply Z.div_pos; lia).
  assert (Hpowe1 : 2 <= 2 ^ (- e1)).
  { change 2 with (2 ^ 1) at 1. apply Z.pow_le_mono_r; lia. }
  assert (Hsplit : 2 ^ (- E) = 2 ^ n1 * 2 ^ (- e1)).
  { rewrite <- Z.pow_add_r by lia. f_equal. lia. }
  assert (Hq1 : shr_m mrs1 <= p * 2 ^ (- e1)).
  { rewrite Hm1. apply Z.div_le_upper_bound; [lia |]. rewrite Hsplit in HM. lia. }
  assert (Hm1lt : m1 < (p + 1) * 2 ^ (- e1)) by lia.
  (* the integer part of the rounded value, and how far it is from the
     integer part of the exact one *)
  set (a := m1 / 2 ^ (- e1)).
  assert (Hexact : Z.pos M / 2 ^ (- E) = shr_m mrs1 / 2 ^ (- e1)).
  { rewrite Hm1, Hsplit. rewrite Z.div_div by lia. reflexivity. }
  assert (Ha : 0 <= a <= p).
  { split; [apply Z.div_pos; lia |].
    assert (a < p + 1); [apply Z.div_lt_upper_bound; lia | lia]. }
  assert (Ha' : Z.pos M / 2 ^ (- E) <= a <= Z.pos M / 2 ^ (- E) + 1).
  { rewrite Hexact. unfold a. split.
    - apply Z.div_le_mono; lia.
    - transitivity ((shr_m mrs1 + 1 * 2 ^ (- e1)) / 2 ^ (- e1)).
      + apply Z.div_le_mono; lia.
      + rewrite Z.div_add by lia. lia. }
  (* second normalisation *)
  destruct (shr_fexp_spec m1 e1 loc_Exact ltac:(lia)) as [Hm2 He2].
  destruct (shr_fexp Float32.prec Float32.emax m1 e1 loc_Exact) as [mrs2 e2].
  cbn [fst snd] in Hm2, He2.
  set (n2 := Z.max 0 (fexp Float32.prec Float32.emax (Zdigits2 m1 + e1) - e1)) in *.
  assert (Hn2 : 0 <= n2) by (subst n2; lia).
  assert (Hm1pow : m1 < 2 ^ (17 - e1)).
  { replace (17 - e1) with (17 + - e1) by lia. rewrite Z.pow_add_r by lia.
    change (2 ^ 17) with 131072. change (2 ^ 16) with 65536 in Hp. nia. }
  assert (Hd1 : Zdigits2 m1 <= 17 - e1).
  { apply Zdigits2_le_of_lt_pow; lia. }
  assert (He2neg : e2 < 0).
  { rewrite He2. subst n2. rewrite fexp_eq. lia. }
  assert (Hpow2 : 0 < 2 ^ n2) by pow2_pos.
  assert (Hm2nn : 0 <= shr_m mrs2) by (rewrite Hm2; apply Z.div_pos; lia).
  assert (Hsplit2 : 2 ^ (- e1) = 2 ^ n2 * 2 ^ (- e2)).
  { rewrite <- Z.pow_add_r by lia. f_equal. lia. }
  assert (Ha2 : a = shr_m mrs2 / 2 ^ (- e2)).
  { unfold a. rewrite Hm2, Hsplit2. rewrite Z.div_div; [reflexivity | lia |].
    apply Z.pow_pos_nonneg; lia. }
  exists a. split; [exact Ha |]. split; [exact Ha' |].
  destruct (shr_m mrs2) as [| m2 | m2] eqn:Em2; try lia.
  - rewrite Ha2. rewrite Z.div_0_l by (apply Z.pow_nonzero; lia).
    destruct s; reflexivity.
  - replace (e2 <=? Float32.emax - Float32.prec) with true
      by (symmetry; apply Z.leb_le; change (Float32.emax - Float32.prec) with 104; lia).
    destruct e2 as [| k | k]; try lia.
    cbn [Float32.trunc]. rewrite Ha2. reflexivity.
Qed.

Lemma compare_cont_Eq_not_Gt (m n : positive) :
  PosDef.Pos.compare_cont Eq m n <> Gt -> Z.pos m <= Z.pos n.
Proof. intros H. apply Pos2Z.pos_le_pos. exact H. Qed.

Lemma compare_cont_Eq_not_Lt (m n : positive) :
  PosDef.Pos.compare_cont Eq m n <> Lt -> Z.pos n <= Z.pos m.
Proof. intros H. apply Pos2Z.pos_le_pos. apply Pos.ge_le. exact H. Qed.

Lemma speed_in_range_cases v :
  speed_in_range v = true ->
  (exists s, v = S754_zero s)
  \/ (exists s m e, v = S754_finite s m e /\ e < 0 /\ Z.pos m <= 2 ^ (- e)).
Proof.
  unfold speed_in_range. intros H.
  apply andb_true_iff in H as [H Hle1]. apply andb_true_iff in H as [Hv Hge].
  destruct v as [s | s | | s m e].
  - left. exists s. reflexivity.
  - exfalso. destruct s; [discriminate Hge | discriminate Hle1].
  - discriminate Hge.
  - right. exists s, m, e. split; [reflexivity |].
    unfold Float32.valid, valid_binary, bounded, canonical_mantissa in Hv.
    apply andb_true_iff in Hv as [Hcan _]. apply Z.eqb_eq in Hcan.
    rewrite fexp_eq in Hcan.
    destruct (digits2_pos_bounds m) as [_ Hmlt].
    assert (Hd : Z.pos (digits2_pos m) <= 24) by lia.
    assert (Hm24 : Z.pos m < 2 ^ 24).
    { eapply Z.lt_le_trans; [exact Hmlt |]. apply Z.pow_le_mono_r; lia. }
    assert (Hcmp : e < -23 \/ (e = -23 /\ Z.pos m <= 8388608)).
    { change Float32.one with (S754_finite false 8388608 (-23)) in Hle1.
      change Float32.minus_one with (S754_finite true 8388608 (-23)) in Hge.
      unfold Float32.leb, SFleb, SFcompare in Hle1, Hge.
      clear Hmlt Hm24 Hcan Hd.
      destruct s.
      - clear Hle1. rewrite (Z.compare_antisym e (-23)) in Hge.
        destruct (Z.compare_spec e (-23)) as [He | He | He]; cbn [CompOpp] in Hge.
        + right. split; [assumption |].
          apply compare_cont_Eq_not_Lt.
          intro Hc. rewrite Hc in Hge. discriminate Hge.
        + left. assumption.
        + discriminate Hge.
      - clear Hge.
        destruct (Z.compare_spec e (-23)) as [He | He | He].
        + right. split; [assumption |].
          apply compare_cont_Eq_not_Gt.
          intro Hc. rewrite Hc in Hle1. discriminate Hle1.
        + left. assumption.
        + discriminate Hle1. }
    destruct Hcmp as [He | [He Hm]].
    + split; [lia |]. apply Z.lt_le_incl. eapply Z.lt_le_trans; [exact Hm24 |].
      apply Z.pow_le_mono_r; lia.
    + subst e. split; [lia |]. exact Hm.
Qed.

Lemma period_float (p : Z) :
  1 <= p < 2 ^ 16 ->
  exists m e, Float32.of_Z p = S754_finite false m e /\ e < 0 /\ Z.pos m = p * 2 ^ (- e).
Proof.
  intros Hp.
  assert (H : period_float_ok p = true).
  { apply (Zforall_range_spec _ _ 1 p period_float_all).
    rewrite Z2Nat.id by lia. change (2 ^ 16) with 65536 in Hp. lia. }
  unfold period_float_ok in H.
  destruct (Float32.of_Z p) as [s | s | | s m e]; try discriminate H.
  destruct s; try discriminate H.
  apply andb_true_iff in H as [He Hm].
  exists m, e. split; [reflexivity |]. split; [apply Z.ltb_lt, He | apply Z.eqb_eq, Hm].
Qed.

Lemma to_int32_of_trunc (x : Float32.float) (z : Z) :
  Float32.trunc x = Some z -> - 2 ^ 31 <= z <= 2 ^ 31 - 1 -> Float32.to_int32 x = z.
Proof.
  intros H Hz. unfold Float32.to_int32.
  destruct x; try discriminate H; rewrite H; lia.
Qed.

Lemma exact_magnitude_zero (s : bool) (p : Z) : exact_magnitude (S754_zero s) p = 0.
Proof. reflexivity. Qed.

Lemma exact_magnitude_finite (s : bool) (m : positive) (e p : Z) :
  e < 0 -> 0 <= p ->
  exact_magnitude (S754_finite s m e) p = Z.pos m * p / 2 ^ (- e).
Proof.
  intros He Hp. destruct e as [| k | k]; try lia.
  unfold exact_magnitude, Float32.to_Q, Qfloor, Qabs, Qmult, inject_Z.
  cbn [Qnum Qden]. rewrite Pos.mul_1_r, Pos2Z.inj_pow.
  change (- Z.neg k) with (Z.pos k). f_equal.
  destruct s; rewrite Z.abs_mul, (Z.abs_eq p) by lia; reflexivity.
Qed.

(** The product [motor_speed * (float)pwm_period] has an integer part
    between [0] and the period in magnitude, with the sign of the speed;
    the magnitude is the integer part of the exact product, or one more
    when the rounding of the product reaches the next integer. *)
Lemma signed_duty_cycle_spec (v : Float32.float) (p : Z) :
  speed_in_range v = true -> 0 <= p < 2 ^ 16 ->
  let d := signed_duty_cycle_of v p in
  Float32.trunc (Float32.mul v (Float32.of_Z p)) = Some d
  /\ - p <= d <= p
  /\ (speed_nonneg v = true -> 0 <= d)
  /\ (speed_nonneg v = false -> d <= 0)
  /\ exact_magnitude v p <= Z.abs d <= exact_magnitude v p + 1.
Proof.
  intros Hv Hp d.
  assert (Hzero : forall s, Float32.trunc (Float32.mul (S754_zero s) (Float32.of_Z p)) = Some 0).
  { intros s. destruct (Z.eq_dec p 0) as [-> | Hp0]; [destruct s; reflexivity |].
    destruct (period_float p ltac:(lia)) as (my & ey & -> & _). reflexivity. }
  assert (Hfin : forall s m e, e < 0 -> Z.pos m <= 2 ^ (- e) ->
            exists a, 0 <= a <= p
              /\ Z.pos m * p / 2 ^ (- e) <= a <= Z.pos m * p / 2 ^ (- e) + 1
              /\ Float32.trunc (Float32.mul (S754_finite s m e) (Float32.of_Z p))
                 = Some (if s then - a else a)).
  { intros s mx ex Hex Hmx.
    assert (0 < 2 ^ (- ex)) by pow2_pos.
    destruct (Z.eq_dec p 0) as [-> | Hp0].
    - exists 0. rewrite Z.mul_0_r, Z.div_0_l by lia.
      split; [lia |]. split; [lia |]. destruct s; reflexivity.
    - destruct (period_float p ltac:(lia)) as (my & ey & -> & Hey & Hmy).
      unfold Float32.mul, SFmul.
      replace (xorb s false) with s by (destruct s; reflexivity).
      assert (0 < 2 ^ (- ey)) by pow2_pos.
      assert (Hpow : 2 ^ (- (ex + ey)) = 2 ^ (- ex) * 2 ^ (- ey)).
      { rewrite <- Z.pow_add_r by lia. f_equal. lia. }
      assert (Hex' : Z.pos (mx * my) / 2 ^ (- (ex + ey)) = Z.pos mx * p / 2 ^ (- ex)).
      { rewrite Pos2Z.inj_mul, Hmy, Hpow, Z.mul_assoc.
        apply Z.div_mul_cancel_r; lia. }
      rewrite <- Hex'.
      apply round_aux_trunc_le; [lia | lia |].
      rewrite Pos2Z.inj_mul, Hmy, Hpow. nia. }
  change (2 ^ 16) with 65536 in Hp.
  apply speed_in_range_cases in Hv as [[s ->] | (s & m & e & -> & He & Hm)].
  - assert (Hd : d = 0).
    { unfold d, signed_duty_cycle_of. apply to_int32_of_trunc; [apply Hzero |].
      change (2 ^ 31) with 2147483648. lia. }
    rewrite Hd, exact_magnitude_zero. split; [apply Hzero |]. lia.
  - destruct (Hfin s m e He Hm) as (a & Ha & Hex & Ht).
    assert (Hd : d = if s then - a else a).
    { unfold d, signed_duty_cycle_of. apply to_int32_of_trunc; [exact Ht |].
      change (2 ^ 31) with 2147483648. destruct s; lia. }
    rewrite Hd, exact_magnitude_finite by lia. split; [exact Ht |].
    destruct s.
    + replace (speed_nonneg (S754_finite true m e)) with false by reflexivity.
      repeat split; intros; try discriminate; lia.
    + replace (speed_nonneg (S754_finite false m e)) with true by reflexivity.
      repeat split; intros; try discriminate; lia.
Qed.

Lemma speed_neg_nonneg (v : Float32.float) :
  speed_in_range v = true -> speed_neg v = negb (speed_nonneg v).
Proof.
  intros Hv.
  apply speed_in_range_cases in Hv as [[s ->] | (s & m & e & -> & _)];
    destruct s; reflexivity.
Qed.

(** * The decay-mode level mapping *)

(** [update_pwm] appends exactly two level writes and changes nothing
    else. *)
Lemma update_pwm_run (w : World) :
  update_pwm w
  = (tt, with_log w (hw_log w ++ level_writes (this w) (levels_of (this w)))).
Proof.
  unfold levels_of, calls_of, update_pwm, bind, get_this, pwm_set_gpio_level, hw, with_log.
  cbn [this hw_log clk_sys_hz fst snd length skipn app].
  destruct (motor_decay_mode (this w) =? SLOW_DECAY);
    destruct (signed_duty_cycle_of (motor_speed (this w)) (pwm_period (this w)) >=? 0);
    cbn; rewrite <- app_assoc; reflexivity.
Qed.

Lemma levels_of_eq (m : Motor) :
  levels_of m =
  let d := signed_duty_cycle_of (motor_speed m) (pwm_period m) in
  let p := pwm_period m in
  if motor_decay_mode m =? SLOW_DECAY then
    if d >=? 0 then (to_uint16 p, to_uint16 (p - d)) else (to_uint16 (p + d), to_uint16 p)
  else
    if d >=? 0 then (to_uint16 d, to_uint16 0) else (to_uint16 0, to_uint16 (0 - d)).
Proof.
  unfold levels_of, calls_of, update_pwm, bind, get_this, pwm_set_gpio_level, hw.
  cbn [this hw_log clk_sys_hz fst snd length skipn app].
  destruct (motor_decay_mode m =? SLOW_DECAY);
    destruct (signed_duty_cycle_of (motor_speed m) (pwm_period m) >=? 0);
    reflexivity.
Qed.

(** C1 (as amended): for every stored speed in [-1.0, 1.0], every period
    and both decay modes, [update_pwm] computes the duty cycle as the
    integer part (rounding toward zero, not to nearest) of the binary32
    product speed * period, a signed integer in [-period, period] whose
    magnitude is the integer part of the exact product or one more, and
    writes: in FAST_DECAY (dutyCycle, 0) when speed >= 0 and (0, -dutyCycle)
    when speed < 0; in SLOW_DECAY (period, period - dutyCycle) when
    speed >= 0 and (period + dutyCycle, period) when speed < 0. *)
Theorem update_pwm_levels (w : World) :
  let m := this w in
  let period := pwm_period m in
  let dutyCycle := signed_duty_cycle_of (motor_speed m) period in
  speed_in_range (motor_speed m) = true ->
  is_uint16 period = true ->
  motor_decay_mode m = FAST_DECAY \/ motor_decay_mode m = SLOW_DECAY ->
  Float32.trunc (Float32.mul (motor_speed m) (Float32.of_Z period)) = Some dutyCycle
  /\ - period <= dutyCycle <= period
  /\ exact_magnitude (motor_speed m) period <= Z.abs dutyCycle
     <= exact_magnitude (motor_speed m) period + 1
  /\ update_pwm w
     = (tt, with_log w (hw_log w ++
          level_writes m
            (decay_levels (motor_decay_mode m) (speed_nonneg (motor_speed m))
               period dutyCycle))).
Proof.
  intros m period d Hv Hp Hmode.
  apply is_uint16_range in Hp.
  destruct (signed_duty_cycle_spec (motor_speed m) period Hv Hp)
    as (Ht & Hd & Hnn & Hneg & Hex).
  fold d in Ht, Hd, Hnn, Hneg, Hex.
  split; [exact Ht |]. split; [exact Hd |]. split; [exact Hex |].
  rewrite update_pwm_run. fold m. do 3 f_equal.
  rewrite levels_of_eq. fold period d. cbv zeta.
  unfold decay_levels.
  destruct Hmode as [-> | ->]; cbn [Z.eqb FAST_DECAY SLOW_DECAY Pos.eqb].
  - destruct (speed_nonneg (motor_speed m)) eqn:Es.
    + specialize (Hnn eq_refl). replace (d >=? 0) with true by (symmetry; apply Z.geb_le; lia).
      rewrite !to_uint16_id by lia. reflexivity.
    + specialize (Hneg eq_refl). destruct (Z.geb_spec d 0).
      * replace d with 0 by lia. reflexivity.
      * rewrite !to_uint16_id by lia. f_equal.
  - destruct (speed_nonneg (motor_speed m)) eqn:Es.
    + specialize (Hnn eq_refl). replace (d >=? 0) with true by (symmetry; apply Z.geb_le; lia).
      rewrite !to_uint16_id by lia. reflexivity.
    + specialize (Hneg eq_refl). destruct (Z.geb_spec d 0).
      * replace d with 0 by lia. rewrite Z.add_0_r, Z.sub_0_r, !to_uint16_id by lia.
        reflexivity.
      * rewrite !to_uint16_id by lia. reflexivity.
Qed.

Lemma update_pwm_levels_witness :
  let w := after (init ;; set_speed (ratio 3 4))%motor (boot SLOW_DECAY) in
  speed_in_range (motor_speed (this w)) = true
  /\ is_uint16 (pwm_period (this w)) = true
  /\ update_pwm w
     = (tt, with_log w (hw_log w ++ level_writes (this w) (5000, 1250))).
Proof.
  split; [reflexivity |]. split; [reflexivity |].
  apply (update_pwm_levels
           (after (init ;; set_speed (ratio 3 4))%motor (boot SLOW_DECAY)));
    [reflexivity | reflexivity | right; reflexivity].
Defined.

(** C1, the claim as stated fails: on the default set-up (period 5000) at
    speed 3/32 the exact product is 468.75; the driver writes 468, the
    nearest integer is 469. *)
Lemma update_pwm_levels_round_counterexample :
  let w := after (init ;; set_speed (ratio 3 32))%motor (boot FAST_DECAY) in
  speed_in_range (motor_speed (this w)) = true
  /\ Qeq_bool (Float32.to_Q (motor_speed (this w))) (3 # 32) = true
  /\ pwm_period (this w) = 5000
  /\ motor_decay_mode (this w) = FAST_DECAY
  /\ calls_of update_pwm w = level_writes (this w) (468, 0)
  /\ spec_levels (this w) = (469, 0)
  /\ levels_of (this w) <> spec_levels (this w).
Proof.
  vm_compute. repeat split. discriminate.
Qed.

(** The binary32 product can reach the next integer: 0.7f is just below
    7/10, the exact product with 5000 is just below 3500, and the rounded
    product is 3500.0f. *)
Lemma duty_cycle_above_exact_example :
  speed_in_range (ratio 7 10) = true
  /\ exact_magnitude (ratio 7 10) 5000 = 3499
  /\ signed_duty_cycle_of (ratio 7 10) 5000 = 3500.
Proof. vm_compute. repeat split. Qed.

Lemma signed_duty_cycle_zero (s : bool) (p : Z) :
  0 <= p < 2 ^ 16 -> signed_duty_cycle_of (S754_zero s) p = 0.
Proof.
  intros Hp.
  assert (Hv : speed_in_range (S754_zero s) = true) by (destruct s; reflexivity).
  destruct (signed_duty_cycle_spec (S754_zero s) p Hv Hp) as (Ht & _ & Hnn & _).
  destruct (Z.eq_dec p 0) as [-> | Hp0]; [destruct s; reflexivity |].
  destruct (period_float p ltac:(lia)) as (my & ey & Hf & _).
  rewrite Hf in Ht. cbn in Ht. congruence.
Qed.

Lemma speed_pos_nonneg (v : Float32.float) :
  speed_in_range v = true -> speed_pos v = true -> speed_nonneg v = true.
Proof.
  intros Hv.
  apply speed_in_range_cases in Hv as [[s ->] | (s & m & e & -> & _)];
    destruct s; intros H; try discriminate H; reflexivity.
Qed.

(** C2 (as amended): in SLOW_DECAY one channel is written the period and
    the other the period less the magnitude of the duty cycle, so the two
    levels sum to 2 * period - |dutyCycle|, a value between period and
    2 * period; the sum is the period only when |dutyCycle| = period. *)
Theorem slow_decay_levels_sum (m : Motor) :
  let period := pwm_period m in
  let dutyCycle := signed_duty_cycle_of (motor_speed m) period in
  speed_in_range (motor_speed m) = true ->
  is_uint16 period = true ->
  motor_decay_mode m = SLOW_DECAY ->
  fst (levels_of m) + snd (levels_of m) = 2 * period - Z.abs dutyCycle
  /\ Z.max (fst (levels_of m)) (snd (levels_of m)) = period
  /\ Z.min (fst (levels_of m)) (snd (levels_of m)) = period - Z.abs dutyCycle
  /\ period <= fst (levels_of m) + snd (levels_of m) <= 2 * period
  /\ (fst (levels_of m) + snd (levels_of m) = period <-> Z.abs dutyCycle = period).
Proof.
  intros period d Hv Hp Hmode.
  apply is_uint16_range in Hp.
  destruct (signed_duty_cycle_spec (motor_speed m) period Hv Hp) as (_ & Hd & _).
  fold d in Hd.
  rewrite levels_of_eq. fold period d. cbv zeta. rewrite Hmode.
  cbn [Z.eqb SLOW_DECAY Pos.eqb].
  destruct (Z.geb_spec d 0); cbn [fst snd]; rewrite !to_uint16_id by lia; lia.
Qed.

Lemma slow_decay_levels_sum_witness :
  let m := this (after (init ;; set_speed (ratio 3 4))%motor (boot SLOW_DECAY)) in
  levels_of m = (5000, 1250)
  /\ fst (levels_of m) + snd (levels_of m)
     = 2 * pwm_period m - Z.abs (signed_duty_cycle_of (motor_speed m) (pwm_period m)).
Proof.
  split; [reflexivity |].
  apply (slow_decay_levels_sum
           (this (after (init ;; set_speed (ratio 3 4))%motor (boot SLOW_DECAY))));
    reflexivity.
Defined.

(** C2, the claim as stated fails: a stopped motor in SLOW_DECAY has both
    channels at the period, and they sum to twice the period. *)
Lemma slow_decay_sum_counterexample :
  let w := after (init ;; stop)%motor (boot SLOW_DECAY) in
  speed_in_range (motor_speed (this w)) = true
  /\ motor_decay_mode (this w) = SLOW_DECAY
  /\ pwm_period (this w) = 5000
  /\ levels_of (this w) = (5000, 5000)
  /\ fst (levels_of (this w)) + snd (levels_of (this w)) <> pwm_period (this w).
Proof.
  vm_compute. repeat split. discriminate.
Qed.

(** C8 (as amended): for every nonzero speed in [-1.0, 1.0] and every
    period, FAST_DECAY writes at most one nonzero level: for speed > 0 the
    negative channel is 0 and the positive one is the duty cycle, for
    speed < 0 the positive channel is 0 and the negative one is its
    magnitude.  The driven channel is nonzero exactly when the truncated
    duty cycle is, which is the case whenever |speed * period| >= 1; when
    it truncates to 0 both channels are 0. *)
Theorem fast_decay_sign_exclusive (m : Motor) :
  let period := pwm_period m in
  let dutyCycle := signed_duty_cycle_of (motor_speed m) period in
  speed_in_range (motor_speed m) = true ->
  is_uint16 period = true ->
  motor_decay_mode m = FAST_DECAY ->
  (speed_pos (motor_speed m) = true ->
     0 <= dutyCycle /\ levels_of m = (dutyCycle, 0))
  /\ (speed_neg (motor_speed m) = true ->
     dutyCycle <= 0 /\ levels_of m = (0, - dutyCycle))
  /\ (fst (levels_of m) = 0 \/ snd (levels_of m) = 0)
  /\ (dutyCycle = 0 <-> levels_of m = (0, 0))
  /\ (1 <= exact_magnitude (motor_speed m) period -> dutyCycle <> 0).
Proof.
  intros period d Hv Hp Hmode.
  apply is_uint16_range in Hp.
  destruct (signed_duty_cycle_spec (motor_speed m) period Hv Hp)
    as (_ & Hd & Hnn & Hneg & Hex).
  fold d in Hd, Hnn, Hneg, Hex.
  assert (Hlv : levels_of m = if d >=? 0 then (d, 0) else (0, - d)).
  { rewrite levels_of_eq. fold period d. cbv zeta. rewrite Hmode.
    cbn [Z.eqb FAST_DECAY SLOW_DECAY].
    destruct (Z.geb_spec d 0); rewrite !to_uint16_id by lia; reflexivity. }
  rewrite Hlv.
  split; [| split; [| split; [| split; [| lia]]]].
  - intros Hpos. apply speed_pos_nonneg in Hpos; [| assumption].
    specialize (Hnn Hpos). split; [assumption |].
    destruct (Z.geb_spec d 0); [reflexivity | lia].
  - intros Hn. rewrite speed_neg_nonneg in Hn by assumption.
    apply negb_true_iff in Hn. specialize (Hneg Hn). split; [assumption |].
    destruct (Z.geb_spec d 0); [| reflexivity].
    replace d with 0 by lia. reflexivity.
  - destruct (d >=? 0); [right | left]; reflexivity.
  - destruct (Z.geb_spec d 0); split; intros H0.
    + rewrite H0. reflexivity.
    + congruence.
    + lia.
    + injection H0 as E. lia.
Qed.

Lemma fast_decay_sign_exclusive_witness :
  let m := this (after (init ;; set_speed (ratio (-3) 4))%motor (boot FAST_DECAY)) in
  speed_neg (motor_speed m) = true /\ levels_of m = (0, 3750).
Proof.
  split; [reflexivity |].
  apply (fast_decay_sign_exclusive
           (this (after (init ;; set_speed (ratio (-3) 4))%motor (boot FAST_DECAY))));
    reflexivity.
Defined.

(** C8, the claim as stated fails: at the nonzero speed 1/16384 and period
    5000 the product is below 1, and both channels are written 0. *)
Lemma fast_decay_both_zero_counterexample :
  let w := after (init ;; set_speed (ratio 1 16384))%motor (boot FAST_DECAY) in
  speed_in_range (motor_speed (this w)) = true
  /\ speed_pos (motor_speed (this w)) = true
  /\ motor_decay_mode (this w) = FAST_DECAY
  /\ 1 <= pwm_period (this w)
  /\ calls_of update_pwm w = level_writes (this w) (0, 0).
Proof.
  vm_compute. repeat split. discriminate.
Qed.

(** C9: at speed exactly 0 (of either sign), for every period, the level
    update writes (0, 0) in FAST_DECAY and (period, period) in
    SLOW_DECAY. *)
Theorem update_pwm_at_zero_speed (w : World) (s : bool) :
  let m := this w in
  motor_speed m = S754_zero s ->
  is_uint16 (pwm_period m) = true ->
  (motor_decay_mode m = FAST_DECAY ->
     update_pwm w = (tt, with_log w (hw_log w ++ level_writes m (0, 0))))
  /\ (motor_decay_mode m = SLOW_DECAY ->
     update_pwm w
     = (tt, with_log w (hw_log w ++ level_writes m (pwm_period m, pwm_period m)))).
Proof.
  intros m Hs Hp. apply is_uint16_range in Hp.
  assert (Hd : signed_duty_cycle_of (motor_speed m) (pwm_period m) = 0).
  { rewrite Hs. apply signed_duty_cycle_zero. exact Hp. }
  split; intros Hmode; rewrite update_pwm_run; fold m; do 3 f_equal;
    rewrite levels_of_eq; cbv zeta; rewrite Hd, Hmode;
    cbn [Z.eqb FAST_DECAY SLOW_DECAY Pos.eqb Z.geb Z.compare];
    rewrite ?Z.sub_0_r, ?to_uint16_id by lia; reflexivity.
Qed.

Lemma update_pwm_at_zero_speed_witness :
  let w := after (init ;; set_speed (ratio 3 4) ;; stop)%motor (boot SLOW_DECAY) in
  motor_speed (this w) = S754_zero false
  /\ update_pwm w
     = (tt, with_log w (hw_log w ++ level_writes (this w) (5000, 5000))).
Proof.
  split; [reflexivity |].
  apply (update_pwm_at_zero_speed
           (after (init ;; set_speed (ratio 3 4) ;; stop)%motor (boot SLOW_DECAY)) false);
    reflexivity.
Defined.

(** * The frequency quantiser *)

Lemma gate5_spec d p :
  gate5 d p = true <-> 5 * 16 <= d /\ d mod 5 = 0 /\ p * 5 < MAX_PWM_PERIOD.
Proof.
  unfold gate5. rewrite !andb_true_iff, Z.leb_le, Z.eqb_eq, Z.ltb_lt.
  change (Z.shiftl 5 4) with (5 * 16). tauto.
Qed.

Lemma gate3_spec d p :
  gate3 d p = true <-> 3 * 16 <= d /\ d mod 3 = 0 /\ p * 3 < MAX_PWM_PERIOD.
Proof.
  unfold gate3. rewrite !andb_true_iff, Z.leb_le, Z.eqb_eq, Z.ltb_lt.
  change (Z.shiftl 3 4) with (3 * 16). tauto.
Qed.

Lemma gate2_spec d p :
  gate2 d p = true <-> 2 * 16 <= d /\ p * 2 <= MAX_PWM_PERIOD.
Proof.
  unfold gate2. rewrite !andb_true_iff, !Z.leb_le.
  change (Z.shiftl 2 4) with (2 * 16). tauto.
Qed.

(** What one pass does to the state: the divider strictly decreases, the
    period at least doubles and stays within [MAX_PWM_PERIOD]. *)
Lemma factor_step_progress (d p d' p' : Z) :
  1 <= p <= MAX_PWM_PERIOD ->
  factor_step d p = Some (d', p') ->
  0 <= d' < d /\ 2 * p <= p' <= MAX_PWM_PERIOD /\ 16 <= d'.
Proof.
  unfold MAX_PWM_PERIOD. intros Hp H. unfold factor_step in H.
  destruct (gate5 d p) eqn:G5; [| destruct (gate3 d p) eqn:G3; [| destruct (gate2 d p) eqn:G2]].
  - apply gate5_spec in G5. unfold MAX_PWM_PERIOD in G5.
    injection H as <- <-. rewrite to_uint16_id by uint16_lia.
    assert (d / 5 < d) by (apply Z.div_lt; lia).
    assert (16 <= d / 5) by (apply Z.div_le_lower_bound; lia). lia.
  - apply gate3_spec in G3. unfold MAX_PWM_PERIOD in G3.
    injection H as <- <-. rewrite to_uint16_id by uint16_lia.
    assert (d / 3 < d) by (apply Z.div_lt; lia).
    assert (16 <= d / 3) by (apply Z.div_le_lower_bound; lia). lia.
  - apply gate2_spec in G2. unfold MAX_PWM_PERIOD in G2.
    injection H as <- <-. rewrite to_uint16_id by uint16_lia.
    assert (d / 2 < d) by (apply Z.div_lt; lia).
    assert (16 <= d / 2) by (apply Z.div_le_lower_bound; lia). lia.
  - discriminate H.
Qed.

(** With [fuel] passes allowed and a period that cannot double [fuel]
    times, the loop leaves through [break]. *)
Lemma factor_loop_enough (fuel : nat) : forall d p,
  1 <= p <= MAX_PWM_PERIOD ->
  MAX_PWM_PERIOD < p * 2 ^ Z.of_nat fuel ->
  exists n d' p',
    (n < fuel)%nat
    /\ factor_run n (d, p) (d', p')
    /\ factor_step d' p' = None
    /\ factor_loop fuel d p = Some (d', p')
    /\ p <= p' <= MAX_PWM_PERIOD
    /\ d' <= d.
Proof.
  induction fuel as [| fuel IH]; intros d p Hp Hfuel.
  - cbn in Hfuel. lia.
  - cbn [factor_loop]. destruct (factor_step d p) as [[d1 p1] |] eqn:Hs.
    + destruct (factor_step_progress d p d1 p1 Hp Hs) as (Hd1 & Hp1 & _).
      destruct (IH d1 p1 ltac:(lia)) as (n & d' & p' & Hn & Hrun & Hend & Hloop & Hp' & Hd').
      { rewrite Nat2Z.inj_succ, Z.pow_succ_r in Hfuel by lia.
        assert (0 < 2 ^ Z.of_nat fuel) by pow2_pos. nia. }
      exists (S n), d', p'. repeat split; try lia; try assumption.
      eapply factor_run_step; eassumption.
    + exists 0%nat, d, p. repeat split; try lia; try assumption.
      apply factor_run_stop.
Qed.

Lemma factor_run_deterministic (n : nat) : forall s r1 n2 r2,
  factor_run n s r1 -> factor_step (fst r1) (snd r1) = None ->
  factor_run n2 s r2 -> factor_step (fst r2) (snd r2) = None ->
  n = n2 /\ r1 = r2.
Proof.
  induction n as [| n IH]; intros s r1 n2 r2 H1 E1 H2 E2.
  - inversion H1; subst.
    inversion H2 as [| k d p d2 p2 r Hs2 Hr2]; subst; [split; reflexivity |].
    cbn [fst snd] in E1. congruence.
  - inversion H1 as [| k d p d1 p1 r Hs1 Hr1]; subst.
    inversion H2 as [| k2 da pa d2 p2 r Hs2 Hr2]; subst.
    + cbn [fst snd] in E2. congruence.
    + assert (E : (d1, p1) = (d2, p2)) by congruence. injection E as <- <-.
      destruct (IH _ _ _ _ Hr1 E1 Hr2 E2) as [-> ->]. split; reflexivity.
Qed.

Lemma factor_run_invariant (n : nat) : forall s r,
  factor_run n s r ->
  1 <= snd s <= MAX_PWM_PERIOD ->
  1 <= snd r <= MAX_PWM_PERIOD /\ fst r <= fst s /\ snd s * 2 ^ Z.of_nat n <= snd r.
Proof.
  induction n as [| n IH]; intros s r H Hs.
  - inversion H; subst. cbn. lia.
  - inversion H as [| k d p d1 p1 r' Hs1 Hr1]; subst. cbn [fst snd] in *.
    destruct (factor_step_progress d p d1 p1 Hs Hs1) as (Hd1 & Hp1 & _).
    destruct (IH _ _ Hr1) as (Hr & Hfst & Hsnd); cbn [fst snd] in *; [lia |].
    rewrite Nat2Z.inj_succ, Z.pow_succ_r by lia.
    assert (0 < 2 ^ Z.of_nat n) by pow2_pos.
    repeat split; try lia. nia.
Qed.

Lemma factor_loop_more_fuel (fuel : nat) : forall k d p r,
  factor_loop fuel d p = Some r -> factor_loop (fuel + k) d p = Some r.
Proof.
  induction fuel as [| fuel IH]; intros k d p r H; [discriminate H |].
  cbn [factor_loop Nat.add] in *.
  destruct (factor_step d p) as [[d1 p1] |]; [apply IH |]; assumption.
Qed.

(** C7: for every target frequency and system clock value (in range or
    not) the factoring loop terminates: it reaches its break branch after
    at most 15 passes, so the 16 passes the model allows (and any larger
    number) give its result; every pass that fires strictly reduces
    divider16 and enlarges the period, which stays within MAX_PERIOD. *)
Theorem factor_loop_terminates (source_hz : Z) (freq : Float32.float) :
  let d0 := initial_div16 source_hz freq in
  (exists n r,
     (n <= 15)%nat
     /\ factor_run n (d0, 1) r
     /\ factor_step (fst r) (snd r) = None
     /\ forall k, factor_loop (loop_fuel + k) d0 1 = Some r)
  /\ (forall n d p d' p',
        factor_run n (d0, 1) (d, p) ->
        factor_step d p = Some (d', p') ->
        d' < d /\ p < p' <= MAX_PWM_PERIOD).
Proof.
  intros d0. split.
  - destruct (factor_loop_enough loop_fuel d0 1) as (n & d & p & Hn & Hrun & Hend & Hloop & _).
    { unfold MAX_PWM_PERIOD. lia. }
    { reflexivity. }
    exists n, (d, p). unfold loop_fuel in Hn.
    repeat split; [lia | assumption | assumption |].
    intros k. apply factor_loop_more_fuel. exact Hloop.
  - intros n d p d' p' Hrun Hstep.
    destruct (factor_run_invariant n _ _ Hrun) as (Hp & _); cbn [fst snd] in *.
    { unfold MAX_PWM_PERIOD. lia. }
    destruct (factor_step_progress d p d' p' Hp Hstep) as (Hd' & Hp' & _). lia.
Qed.

Lemma factor_loop_terminates_witness :
  factor_loop loop_fuel (initial_div16 pico_clock (Float32.of_Z 25000)) 1 = Some (16, 5000)
  /\ exists n r,
       (n <= 15)%nat
       /\ factor_run n (initial_div16 pico_clock (Float32.of_Z 25000), 1) r
       /\ factor_step (fst r) (snd r) = None
       /\ forall k,
            factor_loop (loop_fuel + k) (initial_div16 pico_clock (Float32.of_Z 25000)) 1
            = Some r.
Proof.
  split; [reflexivity |].
  exact (proj1 (factor_loop_terminates pico_clock (Float32.of_Z 25000))).
Defined.

(** C4 (as amended): in each pass of the factoring loop a prime p from
    {5, 3, 2}, tried in that order, is applied (divider16 divided by p,
    period multiplied by p) only if divider16 >= p*16, period * p does not
    exceed MAX_PERIOD (for 5 and 3 it must stay strictly below it) and, for
    p = 5 and p = 3, divider16 % p == 0.  For p = 2 there is no remainder
    check, and divider16 need not be even there: the division then
    truncates.  A prime is applied exactly when its guard holds and the
    guard of every prime before it fails; the pass is the break when no
    guard holds. *)
Theorem factor_step_gate (div16 period : Z) :
  is_uint16 period = true ->
  match factor_step div16 period with
  | Some (div16', period') =>
      exists p,
        (p = 5 \/ p = 3 \/ p = 2)
        /\ div16' = div16 / p /\ period' = period * p
        /\ p * 16 <= div16
        /\ period * p <= MAX_PWM_PERIOD
        /\ (p <> 2 -> div16 mod p = 0 /\ period * p < MAX_PWM_PERIOD)
        /\ (p = 3 -> gate5 div16 period = false)
        /\ (p = 2 -> gate5 div16 period = false /\ gate3 div16 period = false)
  | None =>
      gate5 div16 period = false /\ gate3 div16 period = false
      /\ gate2 div16 period = false
  end
  /\ (gate5 div16 period = true <->
        5 * 16 <= div16 /\ div16 mod 5 = 0 /\ period * 5 < MAX_PWM_PERIOD)
  /\ (gate3 div16 period = true <->
        3 * 16 <= div16 /\ div16 mod 3 = 0 /\ period * 3 < MAX_PWM_PERIOD)
  /\ (gate2 div16 period = true <->
        2 * 16 <= div16 /\ period * 2 <= MAX_PWM_PERIOD).
Proof.
  intros Hp. apply is_uint16_range in Hp. change (2 ^ 16) with 65536 in Hp.
  split; [| split; [apply gate5_spec | split; [apply gate3_spec | apply gate2_spec]]].
  unfold factor_step.
  destruct (gate5 div16 period) eqn:G5;
    [| destruct (gate3 div16 period) eqn:G3; [| destruct (gate2 div16 period) eqn:G2]].
  - apply gate5_spec in G5. unfold MAX_PWM_PERIOD in *.
    exists 5. rewrite to_uint16_id by uint16_lia.
    repeat split; try lia; try (intros; discriminate); auto.
  - apply gate3_spec in G3. unfold MAX_PWM_PERIOD in *.
    exists 3. rewrite to_uint16_id by uint16_lia.
    repeat split; try lia; try (intros; discriminate); auto.
  - apply gate2_spec in G2. unfold MAX_PWM_PERIOD in *.
    exists 2. rewrite to_uint16_id by uint16_lia.
    repeat split; try lia; try (intros; discriminate); auto.
  - repeat split.
Qed.

Lemma factor_step_gate_witness :
  is_uint16 6 = true
  /\ factor_step 11111 6 = Some (5555, 12)
  /\ exists p,
       (p = 5 \/ p = 3 \/ p = 2)
       /\ 5555 = 11111 / p /\ 12 = 6 * p
       /\ p * 16 <= 11111
       /\ 6 * p <= MAX_PWM_PERIOD
       /\ (p <> 2 -> 11111 mod p = 0 /\ 6 * p < MAX_PWM_PERIOD)
       /\ (p = 3 -> gate5 11111 6 = false)
       /\ (p = 2 -> gate5 11111 6 = false /\ gate3 11111 6 = false).
Proof.
  split; [reflexivity |]. split; [reflexivity |].
  exact (proj1 (factor_step_gate 11111 6 eq_refl)).
Defined.

(** C4, the claim as stated fails: divider16 is not always even where 2
    is applied.  At 125 MHz a request for 30 kHz starts from 66666; after
    the passes for 3 and 2 the divider is the odd 11111, and the next pass
    halves it to 5555. *)
Lemma factor_step_odd_halved_counterexample :
  frequency_valid pico_clock (Float32.of_Z 30000) = true
  /\ initial_div16 pico_clock (Float32.of_Z 30000) = 66666
  /\ factor_run 2 (66666, 1) (11111, 6)
  /\ factor_step 11111 6 = Some (11111 / 2, 6 * 2)
  /\ 11111 mod 2 <> 0.
Proof.
  split; [reflexivity |]. split; [reflexivity |].
  split; [| split; [reflexivity | discriminate]].
  apply (factor_run_step 1 66666 1 22222 3); [reflexivity |].
  apply (factor_run_step 0 22222 3 11111 6); [reflexivity |].
  apply factor_run_stop.
Qed.

(** [calculate_pwm_factors] in closed form: the guard, then the window
    test on the state [(div16, period)] the loop leaves through [break]
    with. *)
Lemma calculate_pwm_factors_unfold (source_hz : Z) (freq : Float32.float) :
  exists div16 period,
    loop_exit (initial_div16 source_hz freq) (div16, period)
    /\ 1 <= period <= MAX_PWM_PERIOD
    /\ calculate_pwm_factors source_hz freq
       = if frequency_valid source_hz freq
         then if (16 <=? div16) && (div16 <? 256 * 16)
              then Some (period, div16) else None
         else None.
Proof.
  destruct (factor_loop_enough loop_fuel (initial_div16 source_hz freq) 1)
    as (n & d & p & Hn & Hrun & Hend & Hloop & Hp & _).
  { unfold MAX_PWM_PERIOD. lia. }
  { reflexivity. }
  exists d, p.
  split; [exists n; split; assumption |]. split; [lia |].
  unfold calculate_pwm_factors. destruct (frequency_valid source_hz freq); [| reflexivity].
  cbv zeta. rewrite Hloop. change (Z.shiftl 256 4) with (256 * 16).
  destruct ((16 <=? d) && (d <? 256 * 16)) eqn:Hw; [| reflexivity].
  apply andb_true_iff in Hw as [H1 H2]. apply Z.leb_le in H1. apply Z.ltb_lt in H2.
  unfold MAX_PWM_PERIOD in Hp.
  rewrite !to_uint16_id by uint16_lia. reflexivity.
Qed.

Lemma loop_exit_unique (d0 : Z) (r1 r2 : Z * Z) :
  loop_exit d0 r1 -> loop_exit d0 r2 -> r1 = r2.
Proof.
  intros (n1 & Hrun1 & Hend1) (n2 & Hrun2 & Hend2).
  exact (proj2 (factor_run_deterministic _ _ _ _ _ Hrun1 Hend1 Hrun2 Hend2)).
Qed.

(** What a successful quantisation returns: a period the wrap register
    holds, and a divider the 8.4 divider register holds. *)
Lemma calculate_pwm_factors_range
  (source_hz : Z) (freq : Float32.float) (period div16 : Z) :
  calculate_pwm_factors source_hz freq = Some (period, div16) ->
  1 <= period <= MAX_PWM_PERIOD /\ 16 <= div16 < 256 * 16.
Proof.
  destruct (calculate_pwm_factors_unfold source_hz freq) as (d & p & _ & Hp & ->).
  destruct (frequency_valid source_hz freq); [| discriminate].
  destruct ((16 <=? d) && (d <? 256 * 16)) eqn:Hw; [| discriminate].
  intros H. injection H as <- <-.
  apply andb_true_iff in Hw as [H1 H2]. apply Z.leb_le in H1. apply Z.ltb_lt in H2.
  lia.
Qed.

(** C5 (as amended): for every target frequency f and system clock clk,
    quantisation fails if and only if either f fails the guard
    1.0 <= f <= (float)(clk >> 1) (the upper bound is the integer half of
    clk rounded to binary32, not clk/2; a NaN fails it) or the divider16
    the factoring loop ends with lies outside [16, 256*16); it succeeds and
    returns that (period, divider16) exactly when both checks pass. *)
Theorem calculate_pwm_factors_result (source_hz : Z) (freq : Float32.float) :
  frequency_valid source_hz freq
  = Float32.leb Float32.one freq
    && Float32.leb freq (Float32.of_Z (source_hz / 2))
  /\ exists div16 period,
    loop_exit (initial_div16 source_hz freq) (div16, period)
    /\ (forall r, loop_exit (initial_div16 source_hz freq) r -> r = (div16, period))
    /\ 1 <= period <= MAX_PWM_PERIOD
    /\ (calculate_pwm_factors source_hz freq = None <->
          frequency_valid source_hz freq = false
          \/ ~ (16 <= div16 < 256 * 16))
    /\ (calculate_pwm_factors source_hz freq = Some (period, div16) <->
          frequency_valid source_hz freq = true /\ 16 <= div16 < 256 * 16)
    /\ (forall r, calculate_pwm_factors source_hz freq = Some r -> r = (period, div16)).
Proof.
  split.
  { unfold frequency_valid, Float32.geb.
    rewrite Z.shiftr_div_pow2 by lia. reflexivity. }
  destruct (calculate_pwm_factors_unfold source_hz freq) as (d & p & Hexit & Hp & Hcalc).
  exists d, p.
  assert (Hwin : (16 <=? d) && (d <? 256 * 16) = true <-> 16 <= d < 256 * 16).
  { rewrite andb_true_iff, Z.leb_le, Z.ltb_lt. tauto. }
  split; [exact Hexit |].
  split; [intros r Hr; exact (loop_exit_unique _ _ _ Hr Hexit) |].
  split; [lia |].
  rewrite Hcalc.
  destruct (frequency_valid source_hz freq).
  - destruct ((16 <=? d) && (d <? 256 * 16)).
    + assert (Hd : 16 <= d < 256 * 16) by (apply Hwin; reflexivity).
      repeat split; try tauto; try congruence.
      intros [H | H]; [discriminate | tauto].
    + assert (Hd : ~ (16 <= d < 256 * 16)).
      { intros H. apply Hwin in H. discriminate. }
      repeat split; try tauto; try congruence.
  - repeat split; try tauto; try congruence; intros [H' _]; discriminate.
Qed.

Lemma calculate_pwm_factors_result_witness :
  calculate_pwm_factors pico_clock (Float32.of_Z 25000) = Some (5000, 16)
  /\ calculate_pwm_factors pico_clock (Float32.of_Z 1) = None
  /\ frequency_valid pico_clock (Float32.of_Z 1)
     = Float32.leb Float32.one (Float32.of_Z 1)
       && Float32.leb (Float32.of_Z 1) (Float32.of_Z (pico_clock / 2))
  /\ exists div16 period,
       loop_exit (initial_div16 pico_clock (Float32.of_Z 1)) (div16, period)
       /\ (forall r, loop_exit (initial_div16 pico_clock (Float32.of_Z 1)) r ->
                     r = (div16, period))
       /\ 1 <= period <= MAX_PWM_PERIOD
       /\ (calculate_pwm_factors pico_clock (Float32.of_Z 1) = None <->
             frequency_valid pico_clock (Float32.of_Z 1) = false
             \/ ~ (16 <= div16 < 256 * 16))
       /\ (calculate_pwm_factors pico_clock (Float32.of_Z 1) = Some (period, div16) <->
             frequency_valid pico_clock (Float32.of_Z 1) = true /\ 16 <= div16 < 256 * 16)
       /\ (forall r, calculate_pwm_factors pico_clock (Float32.of_Z 1) = Some r ->
                     r = (period, div16)).
Proof.
  split; [reflexivity |]. split; [reflexivity |].
  exact (calculate_pwm_factors_result pico_clock (Float32.of_Z 1)).
Defined.

(** C5, the claim as stated fails: with a system clock of 125000006 Hz,
    clk/2 is 62500003, and the frequency 62500004 Hz lies outside
    [1.0, clk/2]; the guard compares with (float)62500003 = 62500004, lets
    it through, and quantisation succeeds with (2, 16). *)
Lemma frequency_range_counterexample :
  let clk := 125000006 in
  let f := Float32.of_Z 62500004 in
  Float32.valid f = true
  /\ Qeq_bool (Float32.to_Q f) (62500004 # 1) = true
  /\ spec_frequency_in_range clk f = false
  /\ Z.shiftr clk 1 = 62500003
  /\ Float32.of_Z (Z.shiftr clk 1) = f
  /\ calculate_pwm_factors clk f = Some (2, 16).
Proof.
  vm_compute. repeat split.
Qed.

(** The guard is also narrower than the real interval: at 12000001 Hz the
    frequency 6000000.5 Hz equals clk/2, its divider would end at 16, and
    the guard rejects it. *)
Lemma frequency_range_odd_clock_example :
  let clk := 12000001 in
  let f := ratio 12000001 2 in
  spec_frequency_in_range clk f = true
  /\ loop_exit (initial_div16 clk f) (16, 2)
  /\ calculate_pwm_factors clk f = None.
Proof.
  split; [reflexivity |]. split; [| reflexivity].
  exists 1%nat. split; [| reflexivity].
  apply (factor_run_step 0 _ 1 16 2); [reflexivity | apply factor_run_stop].
Qed.

(** * The controller *)

Lemma calls_of_app {A} (c : M A) (w : World) (l : list hw_call) :
  hw_log (snd (c w)) = hw_log w ++ l -> calls_of c w = l.
Proof.
  intros H. unfold calls_of. rewrite H.
  rewrite skipn_app, skipn_all, Nat.sub_diag. reflexivity.
Qed.

Lemma set_frequency_run (w : World) (freq : Float32.float) (period div16 : Z) :
  calculate_pwm_factors (clk_sys_hz w) freq = Some (period, div16) ->
  let m := this w in
  let m' := set_pwm_frequency freq (set_pwm_period period m) in
  let levels := level_writes m' (levels_of m') in
  set_frequency freq w
  = (true,
     {| this := m';
        clk_sys_hz := clk_sys_hz w;
        hw_log := hw_log w ++ clkdiv_writes m div16 ++
                  (if period >? pwm_period m
                   then levels ++ wrap_writes m period
                   else wrap_writes m period ++ levels) |}).
Proof.
  intros Hq m m' levels.
  unfold set_frequency, bind, clock_get_hz. rewrite Hq.
  unfold get_this, modify_this, pwm_set_clkdiv_int_frac, pwm_set_wrap, when, hw, ret.
  cbn [this clk_sys_hz hw_log]. fold m. fold m'.
  unfold clkdiv_writes, wrap_writes. fold m. cbv zeta.
  destruct (pwm_gpio_to_slice_num (pin_neg m) =? pwm_gpio_to_slice_num (pin_pos m));
    destruct (period >? pwm_period m); cbn [negb];
    rewrite !update_pwm_run; unfold with_log; cbn [this clk_sys_hz hw_log];
    fold m'; fold levels; cbn [pwm_period set_pwm_frequency set_pwm_period];
    repeat rewrite <- app_assoc; reflexivity.
Qed.

(** C3 (as amended): for every successful setFrequency call the divider
    writes come first; then, if the newly quantised period is larger than
    the current one, the two channel level writes are emitted before the
    wrap register writes, and if it is smaller (or the same) the wrap
    writes are emitted first and the level writes after.  In both orders
    the levels are computed from the current speed against the new period,
    which is stored before any write. *)
Theorem set_frequency_write_order
  (w : World) (freq : Float32.float) (period div16 : Z) :
  calculate_pwm_factors (clk_sys_hz w) freq = Some (period, div16) ->
  let m := this w in
  let m' := set_pwm_frequency freq (set_pwm_period period m) in
  let levels := level_writes m' (levels_of m') in
  let calls := calls_of (set_frequency freq) w in
  fst (set_frequency freq w) = true
  /\ this (after (set_frequency freq) w) = m'
  /\ (period > pwm_period m ->
        calls = clkdiv_writes m div16 ++ levels ++ wrap_writes m period
        /\ all_before is_level_write is_wrap_write calls = true)
  /\ (period <= pwm_period m ->
        calls = clkdiv_writes m div16 ++ wrap_writes m period ++ levels
        /\ all_before is_wrap_write is_level_write calls = true)
  /\ all_before is_clkdiv_write is_level_write calls = true
  /\ all_before is_clkdiv_write is_wrap_write calls = true.
Proof.
  intros Hq m m' levels calls.
  assert (Hrun := set_frequency_run w freq period div16 Hq).
  cbv zeta in Hrun. fold m m' levels in Hrun.
  assert (Hcalls : calls = clkdiv_writes m div16 ++
                     (if period >? pwm_period m
                      then levels ++ wrap_writes m period
                      else wrap_writes m period ++ levels)).
  { apply calls_of_app. rewrite Hrun. reflexivity. }
  unfold after. rewrite Hrun. cbn [fst snd this].
  split; [reflexivity |]. split; [reflexivity |].
  rewrite Hcalls. unfold clkdiv_writes, wrap_writes, levels, level_writes. cbv zeta.
  split; [| split; [| split]].
  - intros Hgt. replace (period >? pwm_period m) with true by (symmetry; apply Z.gtb_lt; lia).
    split; [reflexivity |].
    destruct (pwm_gpio_to_slice_num (pin_neg m) =? pwm_gpio_to_slice_num (pin_pos m));
      reflexivity.
  - intros Hle. replace (period >? pwm_period m) with false
      by (symmetry; rewrite Z.gtb_ltb; apply Z.ltb_ge; lia).
    split; [reflexivity |].
    destruct (pwm_gpio_to_slice_num (pin_neg m) =? pwm_gpio_to_slice_num (pin_pos m));
      reflexivity.
  - destruct (pwm_gpio_to_slice_num (pin_neg m) =? pwm_gpio_to_slice_num (pin_pos m));
      destruct (period >? pwm_period m); reflexivity.
  - destruct (pwm_gpio_to_slice_num (pin_neg m) =? pwm_gpio_to_slice_num (pin_pos m));
      destruct (period >? pwm_period m); reflexivity.
Qed.

Lemma set_frequency_write_order_witness :
  let w := after (init ;; set_speed (ratio 3 4))%motor (boot SLOW_DECAY) in
  calculate_pwm_factors (clk_sys_hz w) (Float32.of_Z 50000) = Some (2500, 16)
  /\ pwm_period (this w) = 5000
  /\ calls_of (set_frequency (Float32.of_Z 50000)) w
     = [pwm_set_clkdiv_int_frac_call 0 1 0;
        pwm_set_wrap_call 0 2499;
        pwm_set_gpio_level_call 0 2500;
        pwm_set_gpio_level_call 1 625]
  /\ fst (set_frequency (Float32.of_Z 50000) w) = true.
Proof.
  split; [reflexivity |]. split; [reflexivity |]. split; [reflexivity |].
  exact (proj1 (set_frequency_write_order
                  (after (init ;; set_speed (ratio 3 4))%motor (boot SLOW_DECAY))
                  (Float32.of_Z 50000) 2500 16 eq_refl)).
Defined.

(** C3, the claim as stated fails: going from 25 kHz (period 5000) to
    20 kHz (period 6250) at speed 3/4 in SLOW_DECAY, the levels written
    before the wrap are (6250, 1563), computed against the new period;
    against the old period they would be (5000, 1250). *)
Lemma set_frequency_old_period_counterexample :
  let w := after (init ;; set_speed (ratio 3 4))%motor (boot SLOW_DECAY) in
  calculate_pwm_factors (clk_sys_hz w) (Float32.of_Z 20000) = Some (6250, 16)
  /\ pwm_period (this w) = 5000
  /\ level_writes (this w) (levels_of (this w))
     = [pwm_set_gpio_level_call 0 5000; pwm_set_gpio_level_call 1 1250]
  /\ calls_of (set_frequency (Float32.of_Z 20000)) w
     = [pwm_set_clkdiv_int_frac_call 0 1 0;
        pwm_set_gpio_level_call 0 6250;
        pwm_set_gpio_level_call 1 1563;
        pwm_set_wrap_call 0 6249].
Proof.
  vm_compute. repeat split.
Qed.

Lemma set_frequency_fail (w : World) (freq : Float32.float) :
  calculate_pwm_factors (clk_sys_hz w) freq = None ->
  set_frequency freq w = (false, w).
Proof.
  intros Hq. unfold set_frequency, bind, clock_get_hz. rewrite Hq. reflexivity.
Qed.

Lemma init_fail (w : World) :
  calculate_pwm_factors (clk_sys_hz w) (pwm_frequency (this w)) = None ->
  init w = (false, w).
Proof.
  intros Hq. unfold init, bind, get_this, clock_get_hz. rewrite Hq. reflexivity.
Qed.

(** C6: for every frequency for which quantisation fails, set_frequency
    and init (when that frequency is the stored one) return false and
    leave the object (speed, frequency, period, decay mode, configuration)
    and the peripheral exactly as before the call: no call to the
    peripheral is made. *)
Theorem failed_quantisation_leaves_state (w : World) (freq : Float32.float) :
  calculate_pwm_factors (clk_sys_hz w) freq = None ->
  set_frequency freq w = (false, w)
  /\ calls_of (set_frequency freq) w = []
  /\ (pwm_frequency (this w) = freq ->
        init w = (false, w) /\ calls_of init w = []).
Proof.
  intros Hq.
  assert (Hs := set_frequency_fail w freq Hq).
  split; [exact Hs |].
  split; [apply calls_of_app; rewrite Hs, app_nil_r; reflexivity |].
  intros Hf.
  assert (Hi : init w = (false, w)) by (apply init_fail; rewrite Hf; exact Hq).
  split; [exact Hi |]. apply calls_of_app. rewrite Hi, app_nil_r. reflexivity.
Qed.

Lemma failed_quantisation_leaves_state_witness :
  let w := after (init ;; set_speed (ratio 3 4))%motor (boot SLOW_DECAY) in
  let w0 := {| this := Motor_new 0 1 (ratio 1 2) SLOW_DECAY;
               clk_sys_hz := pico_clock; hw_log := [] |} in
  calculate_pwm_factors pico_clock (ratio 1 2) = None
  /\ set_frequency (ratio 1 2) w = (false, w)
  /\ calls_of (set_frequency (ratio 1 2)) w = []
  /\ init w0 = (false, w0).
Proof.
  split; [reflexivity |].
  split;
    [exact (proj1 (failed_quantisation_leaves_state
                     (after (init ;; set_speed (ratio 3 4))%motor (boot SLOW_DECAY))
                     (ratio 1 2) eq_refl)) |].
  split;
    [exact (proj1 (proj2 (failed_quantisation_leaves_state
                     (after (init ;; set_speed (ratio 3 4))%motor (boot SLOW_DECAY))
                     (ratio 1 2) eq_refl))) |].
  exact (proj1 (proj2 (proj2
           (failed_quantisation_leaves_state
              {| this := Motor_new 0 1 (ratio 1 2) SLOW_DECAY;
                 clk_sys_hz := pico_clock; hw_log := [] |}
              (ratio 1 2) eq_refl)) eq_refl)).
Defined.

(** C10 (as amended): the decay mode is not a checked two-variant type.
    The constructor and set_decay_mode store whatever value they are given,
    SLOW_DECAY, FAST_DECAY or any other, without rejecting any.  The level
    update treats SLOW_DECAY as braking: it writes (period, period -
    dutyCycle) when the duty cycle is >= 0 and (period + dutyCycle, period)
    otherwise.  It treats every other value, FAST_DECAY and through the
    default label any value outside the two enumerators, as FAST_DECAY: it
    writes (dutyCycle, 0) when the duty cycle is >= 0 and (0, -dutyCycle)
    otherwise, the same calls as for FAST_DECAY itself.  The levels are
    given as the uint16_t the SDK call receives. *)
Theorem decay_mode_default_branch
  (w : World) (pos neg : Z) (freq : Float32.float) (mode : DecayMode) :
  let m := this w in
  let p := pwm_period m in
  let d := signed_duty_cycle_of (motor_speed m) p in
  motor_decay_mode (Motor_new pos neg freq mode) = mode
  /\ motor_decay_mode (this (after (set_decay_mode mode) w)) = mode
  /\ (mode = SLOW_DECAY ->
      calls_of (set_decay_mode mode) w
      = level_writes m (if d >=? 0
                        then (to_uint16 p, to_uint16 (p - d))
                        else (to_uint16 (p + d), to_uint16 p)))
  /\ (mode <> SLOW_DECAY ->
      calls_of (set_decay_mode mode) w
      = level_writes m (if d >=? 0
                        then (to_uint16 d, 0)
                        else (0, to_uint16 (0 - d)))
      /\ levels_of (set_motor_decay_mode mode m)
         = levels_of (set_motor_decay_mode FAST_DECAY m)
      /\ calls_of (set_decay_mode mode) w = calls_of (set_decay_mode FAST_DECAY) w).
Proof.
  intros m p d.
  assert (Hrun : forall d', set_decay_mode d' w
            = (tt, {| this := set_motor_decay_mode d' m;
                      clk_sys_hz := clk_sys_hz w;
                      hw_log := hw_log w ++
                        level_writes (set_motor_decay_mode d' m)
                          (levels_of (set_motor_decay_mode d' m)) |})).
  { intros d'. unfold set_decay_mode, bind, modify_this. rewrite update_pwm_run.
    reflexivity. }
  assert (Hcalls : forall d', calls_of (set_decay_mode d') w
            = level_writes m (levels_of (set_motor_decay_mode d' m))).
  { intros d'.
    exact (calls_of_app _ _ _ (f_equal (fun r => hw_log (snd r)) (Hrun d'))). }
  assert (Hlv : forall d', levels_of (set_motor_decay_mode d' m)
            = if d' =? SLOW_DECAY then
                if d >=? 0 then (to_uint16 p, to_uint16 (p - d))
                else (to_uint16 (p + d), to_uint16 p)
              else
                if d >=? 0 then (to_uint16 d, 0) else (0, to_uint16 (0 - d))).
  { intros d'. rewrite levels_of_eq. reflexivity. }
  split; [reflexivity |].
  split; [unfold after; rewrite Hrun; reflexivity |].
  split.
  - intros Hmode. rewrite Hcalls, Hlv, Hmode. reflexivity.
  - intros Hmode.
    assert (Hne : (mode =? SLOW_DECAY) = false) by (apply Z.eqb_neq; exact Hmode).
    assert (Hfast : levels_of (set_motor_decay_mode mode m)
                    = levels_of (set_motor_decay_mode FAST_DECAY m))
      by (rewrite !Hlv, Hne; reflexivity).
    split; [rewrite Hcalls, Hlv, Hne; reflexivity |].
    split; [exact Hfast |].
    rewrite !Hcalls, Hfast. reflexivity.
Qed.

Lemma decay_mode_default_branch_witness :
  let w := after (init ;; set_speed (ratio 3 4))%motor (boot FAST_DECAY) in
  7 <> SLOW_DECAY
  /\ calls_of (set_decay_mode 7) w
     = [pwm_set_gpio_level_call 0 3750; pwm_set_gpio_level_call 1 0]
  /\ calls_of (set_decay_mode SLOW_DECAY) w
     = [pwm_set_gpio_level_call 0 5000; pwm_set_gpio_level_call 1 1250]
  /\ levels_of (set_motor_decay_mode 7 (this w))
     = levels_of (set_motor_decay_mode FAST_DECAY (this w)).
Proof.
  split; [discriminate |].
  split;
    [exact (proj1 (proj2 (proj2 (proj2
              (decay_mode_default_branch
                 (after (init ;; set_speed (ratio 3 4))%motor (boot FAST_DECAY))
                 0 1 (Float32.of_Z 25000) 7)))
              ltac:(discriminate))) |].
  split;
    [exact (proj1 (proj2 (proj2
              (decay_mode_default_branch
                 (after (init ;; set_speed (ratio 3 4))%motor (boot FAST_DECAY))
                 0 1 (Float32.of_Z 25000) SLOW_DECAY))) eq_refl) |].
  exact (proj1 (proj2 (proj2 (proj2 (proj2
           (decay_mode_default_branch
              (after (init ;; set_speed (ratio 3 4))%motor (boot FAST_DECAY))
              0 1 (Float32.of_Z 25000) 7)))
           ltac:(discriminate)))).
Defined.

(** C10, the claim as stated fails: a motor constructed with the value 7,
    outside the two enumerators, is accepted; init succeeds on it, the
    value stays stored, and the level update takes the FAST_DECAY branch
    for it. *)
Lemma decay_mode_unchecked_counterexample :
  let w := {| this := Motor_new 0 1 (Float32.of_Z 25000) 7;
              clk_sys_hz := pico_clock; hw_log := [] |} in
  7 <> SLOW_DECAY /\ 7 <> FAST_DECAY
  /\ fst (init w) = true
  /\ motor_decay_mode (this (after (init ;; set_speed (ratio 3 4))%motor w)) = 7
  /\ calls_of update_pwm (after (init ;; set_speed (ratio 3 4))%motor w)
     = calls_of update_pwm
         (after (init ;; set_speed (ratio 3 4))%motor (boot FAST_DECAY))
  /\ calls_of update_pwm (after (init ;; set_speed (ratio 3 4))%motor w)
     = [pwm_set_gpio_level_call 0 3750; pwm_set_gpio_level_call 1 0].
Proof.
  vm_compute. repeat split; discriminate.
Qed.

(** * What the mutators establish *)

Lemma compare_cont_Eq_antisym (p q : positive) :
  PosDef.Pos.compare_cont Eq q p = CompOpp (PosDef.Pos.compare_cont Eq p q).
Proof. exact (eq_sym (Pos.compare_cont_antisym p q Eq)). Qed.

Lemma SFcompare_antisym (a b : Float32.float) :
  SFcompare b a = option_map CompOpp (SFcompare a b).
Proof.
  destruct a as [sa | sa | | sa ma ea]; destruct b as [sb | sb | | sb mb eb];
    try reflexivity;
    try (destruct sa; reflexivity); try (destruct sb; reflexivity);
    try (destruct sa, sb; reflexivity).
  unfold SFcompare. cbn [option_map]. f_equal.
  destruct sa, sb; try reflexivity;
    rewrite (Z.compare_antisym ea eb); destruct (ea ?= eb); cbn [CompOpp];
    try reflexivity;
    rewrite (compare_cont_Eq_antisym ma mb);
    destruct (PosDef.Pos.compare_cont Eq ma mb); reflexivity.
Qed.

Lemma ltb_false_leb (a b : Float32.float) :
  is_nan a = false -> is_nan b = false ->
  Float32.ltb a b = false -> Float32.leb b a = true.
Proof.
  unfold Float32.ltb, Float32.leb, SFltb, SFleb. intros Ha Hb.
  rewrite (SFcompare_antisym a b).
  destruct (SFcompare a b) as [[| |] |] eqn:E; cbn; try reflexivity; try discriminate.
  intros _. destruct a, b; try discriminate; cbn in E; try discriminate;
    repeat match type of E with
           | context [if ?s then _ else _] => destruct s
           end; discriminate.
Qed.

(** [set_speed] clamps: whatever well-formed number it is given, the speed
    it stores is in [[-1.0, 1.0]]. *)
Lemma clamp_speed_in_range (v : Float32.float) :
  Float32.valid v = true -> is_nan v = false ->
  speed_in_range (clamp_speed v) = true.
Proof.
  intros Hv Hn. unfold clamp_speed, Float32.fmax, Float32.fmin.
  destruct (Float32.ltb v Float32.minus_one) eqn:E1; [reflexivity |].
  destruct (Float32.ltb Float32.one v) eqn:E2; [reflexivity |].
  unfold speed_in_range. rewrite Hv.
  rewrite (ltb_false_leb v Float32.minus_one Hn eq_refl E1).
  rewrite (ltb_false_leb Float32.one v eq_refl Hn E2). reflexivity.
Qed.

Lemma set_speed_run (w : World) (v : Float32.float) :
  let m' := set_motor_speed (clamp_speed v) (this w) in
  set_speed v w
  = (tt, {| this := m'; clk_sys_hz := clk_sys_hz w;
            hw_log := hw_log w ++ level_writes m' (levels_of m') |}).
Proof.
  unfold set_speed, bind, modify_this. rewrite update_pwm_run. reflexivity.
Qed.


(** After a successful [set_frequency] and any [set_speed] of a number,
    the object satisfies what the statements about [update_pwm] assume. *)
Lemma mutators_establish_invariant (w : World) (freq v : Float32.float) :
  fst (set_frequency freq w) = true ->
  Float32.valid v = true -> is_nan v = false ->
  let m := this (after (set_frequency freq ;; set_speed v)%motor w) in
  speed_in_range (motor_speed m) = true
  /\ is_uint16 (pwm_period m) = true
  /\ 1 <= pwm_period m.
Proof.
  intros Hok Hv Hn.
  destruct (calculate_pwm_factors (clk_sys_hz w) freq) as [[period div16] |] eqn:Hq.
  - destruct (calculate_pwm_factors_range _ _ _ _ Hq) as [Hp _].
    unfold after, bind.
    rewrite (set_frequency_run w freq period div16 Hq).
    rewrite set_speed_run. cbn.
    split; [apply clamp_speed_in_range; assumption |].
    unfold MAX_PWM_PERIOD in Hp. split; [| lia].
    unfold is_uint16. apply andb_true_iff. split; [apply Z.leb_le | apply Z.ltb_lt]; lia.
  - exfalso. rewrite (set_frequency_fail w freq Hq) in Hok. discriminate Hok.
Qed.

(** [stop] is [set_speed] of zero: it applies the level mapping of the
    decay mode at duty cycle 0; [disable] writes 0 to both channels
    whatever the decay mode. *)
Lemma stop_run (w : World) :
  stop w = set_speed Float32.zero w.
Proof. reflexivity. Qed.

Lemma disable_run (w : World) :
  disable w
  = (tt, {| this := set_motor_speed Float32.zero (this w);
            clk_sys_hz := clk_sys_hz w;
            hw_log := hw_log w ++ level_writes (this w) (0, 0) |}).
Proof.
  unfold disable, bind, get_this, modify_this, pwm_set_gpio_level, hw, level_writes.
  cbn [this clk_sys_hz hw_log fst snd]. rewrite <- app_assoc. reflexivity.
Qed.

(** * Further properties of the driver *)

(** ** [set_speed] and [get_speed] *)

Lemma leb_true_ltb_false (a b : Float32.float) :
  Float32.leb a b = true -> Float32.ltb b a = false.
Proof.
  unfold Float32.leb, Float32.ltb, SFleb, SFltb.
  rewrite (SFcompare_antisym a b).
  destruct (SFcompare a b) as [[| |] |]; cbn; intros H; try reflexivity; discriminate H.
Qed.

Lemma clamp_speed_id (v : Float32.float) :
  speed_in_range v = true -> clamp_speed v = v.
Proof.
  unfold speed_in_range. intros H.
  apply andb_true_iff in H as [H Hle1]. apply andb_true_iff in H as [_ Hge].
  unfold clamp_speed, Float32.fmax, Float32.fmin.
  rewrite (leb_true_ltb_false _ _ Hge), (leb_true_ltb_false _ _ Hle1). reflexivity.
Qed.

Lemma above_one_not_below (v : Float32.float) :
  Float32.ltb Float32.one v = true -> Float32.ltb v Float32.minus_one = false.
Proof.
  change Float32.one with (S754_finite false 8388608 (-23)).
  change Float32.minus_one with (S754_finite true 8388608 (-23)).
  destruct v as [s | s | | s m e]; try destruct s; intros H;
    try discriminate H; reflexivity.
Qed.

Lemma clamp_speed_above (v : Float32.float) :
  Float32.ltb Float32.one v = true -> clamp_speed v = Float32.one.
Proof.
  intros H. unfold clamp_speed, Float32.fmax, Float32.fmin.
  rewrite (above_one_not_below v H), H. reflexivity.
Qed.

Lemma clamp_speed_below (v : Float32.float) :
  Float32.ltb v Float32.minus_one = true -> clamp_speed v = Float32.minus_one.
Proof.
  intros H. unfold clamp_speed, Float32.fmax, Float32.fmin.
  rewrite H. reflexivity.
Qed.

Lemma clamp_speed_nan (v : Float32.float) :
  is_nan v = true -> clamp_speed v = S754_nan.
Proof. destruct v; try discriminate. reflexivity. Qed.

(** X1: [set_speed] followed by [get_speed] returns the argument clamped
    to [-1.0, 1.0]: an argument in the interval comes back unchanged, one
    above 1.0 comes back as 1.0 and one below -1.0 as -1.0.  For a
    well-formed argument the stored speed lies in the interval exactly when
    the argument is not a NaN; a NaN is stored as it is. *)
Theorem set_speed_get_speed (w : World) (v : Float32.float) :
  let w' := after (set_speed v) w in
  fst (get_speed w') = clamp_speed v
  /\ (speed_in_range v = true -> fst (get_speed w') = v)
  /\ (Float32.ltb Float32.one v = true -> fst (get_speed w') = Float32.one)
  /\ (Float32.ltb v Float32.minus_one = true -> fst (get_speed w') = Float32.minus_one)
  /\ (Float32.valid v = true ->
        (speed_in_range (fst (get_speed w')) = true <-> is_nan v = false)).
Proof.
  intros w'.
  assert (E : fst (get_speed w') = clamp_speed v).
  { unfold w', after. rewrite set_speed_run. reflexivity. }
  rewrite E. split; [reflexivity |].
  split; [apply clamp_speed_id |].
  split; [apply clamp_speed_above |].
  split; [apply clamp_speed_below |].
  intros Hv. split.
  - intros H. destruct (is_nan v) eqn:En; [| reflexivity].
    rewrite (clamp_speed_nan v En) in H. discriminate H.
  - apply clamp_speed_in_range. exact Hv.
Qed.

Lemma set_speed_get_speed_witness :
  let w := after init (boot SLOW_DECAY) in
  Float32.ltb Float32.one (ratio 5 2) = true
  /\ fst (get_speed (after (set_speed (ratio 5 2)) w)) = Float32.one
  /\ fst (get_speed (after (set_speed (ratio (-1) 3)) w)) = ratio (-1) 3.
Proof.
  split; [reflexivity |].
  split.
  - exact (proj1 (proj2 (proj2
             (set_speed_get_speed (after init (boot SLOW_DECAY)) (ratio 5 2)))) eq_refl).
  - exact (proj1 (proj2
             (set_speed_get_speed (after init (boot SLOW_DECAY)) (ratio (-1) 3))) eq_refl).
Defined.

(** ** Levels written by [update_pwm] *)

Lemma levels_of_bounds (m : Motor) :
  speed_in_range (motor_speed m) = true ->
  is_uint16 (pwm_period m) = true ->
  0 <= fst (levels_of m) <= pwm_period m /\ 0 <= snd (levels_of m) <= pwm_period m.
Proof.
  intros Hv Hp. apply is_uint16_range in Hp.
  destruct (signed_duty_cycle_spec _ _ Hv Hp) as (_ & Hd & _).
  rewrite levels_of_eq. cbv zeta.
  destruct (motor_decay_mode m =? SLOW_DECAY);
    destruct (Z.geb_spec (signed_duty_cycle_of (motor_speed m) (pwm_period m)) 0);
    cbn [fst snd]; rewrite !to_uint16_id by lia; lia.
Qed.

(** X2: whatever number [set_speed] is given and whatever value the decay
    mode holds, the call makes exactly two peripheral calls, a level write
    to the positive pin and one to the negative pin, and each level lies
    between 0 and the period: no channel is ever asked for more than 100%
    duty. *)
Theorem set_speed_levels_within_period (w : World) (v : Float32.float) :
  Float32.valid v = true -> is_nan v = false ->
  is_uint16 (pwm_period (this w)) = true ->
  exists a b,
    calls_of (set_speed v) w
    = [pwm_set_gpio_level_call (pin_pos (this w)) a;
       pwm_set_gpio_level_call (pin_neg (this w)) b]
    /\ 0 <= a <= pwm_period (this w)
    /\ 0 <= b <= pwm_period (this w).
Proof.
  intros Hv Hn Hp.
  set (m' := set_motor_speed (clamp_speed v) (this w)).
  exists (fst (levels_of m')), (snd (levels_of m')).
  split.
  - apply calls_of_app. rewrite set_speed_run. reflexivity.
  - apply (levels_of_bounds m'); [apply clamp_speed_in_range; assumption | exact Hp].
Qed.

Lemma set_speed_levels_within_period_witness :
  exists a b,
    calls_of (set_speed (ratio 7 3)) (after init (boot SLOW_DECAY))
    = [pwm_set_gpio_level_call 0 a; pwm_set_gpio_level_call 1 b]
    /\ 0 <= a <= 5000 /\ 0 <= b <= 5000.
Proof.
  exact (set_speed_levels_within_period (after init (boot SLOW_DECAY)) (ratio 7 3)
           eq_refl eq_refl eq_refl).
Defined.

Lemma signed_duty_cycle_full (p : Z) :
  0 <= p < 2 ^ 16 ->
  signed_duty_cycle_of Float32.one p = p
  /\ signed_duty_cycle_of Float32.minus_one p = - p.
Proof.
  intros Hp.
  assert (Hex : forall s, exact_magnitude (S754_finite s 8388608 (-23)) p = p).
  { intros s. rewrite exact_magnitude_finite by lia.
    change (2 ^ (- -23)) with 8388608. rewrite Z.mul_comm. apply Z.div_mul. lia. }
  split.
  - destruct (signed_duty_cycle_spec Float32.one p eq_refl Hp) as (_ & Hd & Hnn & _ & He).
    change Float32.one with (S754_finite false 8388608 (-23)) in *.
    rewrite Hex in He. specialize (Hnn eq_refl). lia.
  - destruct (signed_duty_cycle_spec Float32.minus_one p eq_refl Hp)
      as (_ & Hd & _ & Hneg & He).
    change Float32.minus_one with (S754_finite true 8388608 (-23)) in *.
    rewrite Hex in He. specialize (Hneg eq_refl). lia.
Qed.

(** X3: at full speed the decay mode makes no difference: for every
    period and every value of the decay mode, speed 1.0 writes
    (period, 0) and speed -1.0 writes (0, period); the duty cycle is then
    exactly the period. *)
Theorem full_speed_levels (m : Motor) :
  is_uint16 (pwm_period m) = true ->
  (motor_speed m = Float32.one ->
     signed_duty_cycle_of (motor_speed m) (pwm_period m) = pwm_period m
     /\ levels_of m = (pwm_period m, 0))
  /\ (motor_speed m = Float32.minus_one ->
     signed_duty_cycle_of (motor_speed m) (pwm_period m) = - pwm_period m
     /\ levels_of m = (0, pwm_period m)).
Proof.
  intros Hp. apply is_uint16_range in Hp.
  destruct (signed_duty_cycle_full (pwm_period m) Hp) as [H1 H2].
  split; intros Hs; rewrite levels_of_eq; cbv zeta; rewrite Hs.
  - rewrite H1. split; [reflexivity |].
    replace (pwm_period m >=? 0) with true by (symmetry; apply Z.geb_le; lia).
    rewrite Z.sub_diag.
    destruct (motor_decay_mode m =? SLOW_DECAY); rewrite !to_uint16_id by lia; reflexivity.
  - rewrite H2. split; [reflexivity |].
    destruct (Z.geb_spec (- pwm_period m) 0) as [Hge | Hlt].
    + assert (E : pwm_period m = 0) by lia. rewrite E.
      destruct (motor_decay_mode m =? SLOW_DECAY); reflexivity.
    + replace (pwm_period m + - pwm_period m) with 0 by lia.
      replace (0 - - pwm_period m) with (pwm_period m) by lia.
      destruct (motor_decay_mode m =? SLOW_DECAY); rewrite !to_uint16_id by lia; reflexivity.
Qed.

Lemma full_speed_levels_witness :
  levels_of (this (after (init ;; set_speed (ratio 5 2))%motor (boot SLOW_DECAY)))
  = (5000, 0)
  /\ levels_of (this (after (init ;; set_speed (ratio (-5) 2))%motor (boot FAST_DECAY)))
     = (0, 5000).
Proof.
  split.
  - exact (proj2 (proj1 (full_speed_levels
             (this (after (init ;; set_speed (ratio 5 2))%motor (boot SLOW_DECAY)))
             eq_refl) eq_refl)).
  - exact (proj2 (proj2 (full_speed_levels
             (this (after (init ;; set_speed (ratio (-5) 2))%motor (boot FAST_DECAY)))
             eq_refl) eq_refl)).
Defined.

Lemma binary_round_aux_opp (s : bool) (m e : Z) (l : location) :
  binary_round_aux Float32.prec Float32.emax (negb s) m e l
  = SFopp (binary_round_aux Float32.prec Float32.emax s m e l).
Proof.
  unfold binary_round_aux.
  destruct (shr_fexp Float32.prec Float32.emax m e l) as [mrs1 e1].
  destruct (shr_fexp Float32.prec Float32.emax
              (round_nearest_even (shr_m mrs1) (loc_of_shr_record mrs1)) e1 loc_Exact)
    as [mrs2 e2].
  destruct (shr_m mrs2); try reflexivity.
  destruct (e2 <=? Float32.emax - Float32.prec); reflexivity.
Qed.

(** Negating a factor negates the product, rounding included. *)
Lemma mul_opp_l (x y : Float32.float) :
  Float32.mul (SFopp x) y = SFopp (Float32.mul x y).
Proof.
  assert (Hx : forall a b, xorb (negb a) b = negb (xorb a b))
    by (intros [] []; reflexivity).
  destruct x as [sx | sx | | sx mx ex]; destruct y as [sy | sy | | sy my ey];
    cbn [Float32.mul SFmul SFopp]; rewrite ?Hx; try reflexivity.
  apply binary_round_aux_opp.
Qed.

Lemma trunc_opp (x : Float32.float) (z : Z) :
  Float32.trunc x = Some z -> Float32.trunc (SFopp x) = Some (- z).
Proof.
  destruct x as [s | s | | s m e]; cbn [Float32.trunc SFopp]; intros H;
    try discriminate H; injection H as <-.
  - reflexivity.
  - destruct s; cbn [negb]; rewrite ?Z.opp_involutive; reflexivity.
Qed.

Lemma signed_duty_cycle_opp (v : Float32.float) (p : Z) :
  speed_in_range v = true -> 0 <= p < 2 ^ 16 ->
  signed_duty_cycle_of (SFopp v) p = - signed_duty_cycle_of v p.
Proof.
  intros Hv Hp.
  destruct (signed_duty_cycle_spec v p Hv Hp) as (Ht & Hd & _).
  unfold signed_duty_cycle_of at 1. rewrite mul_opp_l.
  apply to_int32_of_trunc; [apply trunc_opp; exact Ht |].
  change (2 ^ 16) with 65536 in Hp. change (2 ^ 31) with 2147483648. lia.
Qed.

Lemma levels_of_opp (m : Motor) :
  speed_in_range (motor_speed m) = true ->
  is_uint16 (pwm_period m) = true ->
  levels_of (set_motor_speed (SFopp (motor_speed m)) m)
  = (snd (levels_of m), fst (levels_of m)).
Proof.
  intros Hv Hp. apply is_uint16_range in Hp.
  assert (Hopp := signed_duty_cycle_opp _ _ Hv Hp).
  destruct (signed_duty_cycle_spec _ _ Hv Hp) as (_ & Hd & _).
  rewrite !levels_of_eq. cbv zeta.
  cbn [motor_speed pwm_period motor_decay_mode set_motor_speed].
  rewrite Hopp.
  set (d := signed_duty_cycle_of (motor_speed m) (pwm_period m)) in *.
  set (p := pwm_period m) in *.
  destruct (motor_decay_mode m =? SLOW_DECAY);
    destruct (Z.geb_spec d 0); destruct (Z.geb_spec (- d) 0); cbn [fst snd];
    try lia;
    try (assert (E : d = 0) by lia; rewrite E; cbn [Z.opp];
         rewrite ?Z.add_0_r, ?Z.sub_0_r; reflexivity);
    f_equal; f_equal; lia.
Qed.

Lemma SFcompare_opp (a b : Float32.float) :
  SFcompare (SFopp a) (SFopp b) = option_map CompOpp (SFcompare a b).
Proof.
  destruct a as [sa | sa | | sa ma ea]; destruct b as [sb | sb | | sb mb eb];
    try reflexivity;
    try (destruct sa; reflexivity); try (destruct sb; reflexivity);
    try (destruct sa, sb; reflexivity).
  unfold SFcompare, SFopp. cbn [option_map]. f_equal.
  destruct sa, sb; cbn [negb]; try reflexivity;
    destruct (ea ?= eb); cbn [CompOpp]; try reflexivity.
  destruct (PosDef.Pos.compare_cont Eq ma mb); reflexivity.
Qed.

Lemma speed_in_range_opp (v : Float32.float) :
  speed_in_range (SFopp v) = speed_in_range v.
Proof.
  assert (Hvalid : Float32.valid (SFopp v) = Float32.valid v) by (destruct v; reflexivity).
  assert (H1 : SFcompare Float32.minus_one (SFopp v) = SFcompare v Float32.one).
  { rewrite (SFcompare_antisym Float32.one v).
    exact (SFcompare_opp Float32.one v). }
  assert (H2 : SFcompare (SFopp v) Float32.one = SFcompare Float32.minus_one v).
  { rewrite (SFcompare_antisym v Float32.minus_one).
    exact (SFcompare_opp v Float32.minus_one). }
  unfold speed_in_range, Float32.leb, SFleb. rewrite Hvalid, H1, H2.
  rewrite <- !andb_assoc. f_equal. apply andb_comm.
Qed.

(** X4: reversing the speed swaps the two channels: for every speed in
    [-1.0, 1.0], every period and every value of the decay mode, the levels
    [set_speed] writes for -speed are those it writes for speed with
    positive and negative exchanged. *)
Theorem reversed_speed_swaps_levels (w : World) (v : Float32.float) :
  speed_in_range v = true ->
  is_uint16 (pwm_period (this w)) = true ->
  exists a b,
    calls_of (set_speed v) w = level_writes (this w) (a, b)
    /\ calls_of (set_speed (SFopp v)) w = level_writes (this w) (b, a).
Proof.
  intros Hv Hp.
  set (m := set_motor_speed v (this w)).
  exists (fst (levels_of m)), (snd (levels_of m)). split.
  - apply calls_of_app. rewrite set_speed_run, (clamp_speed_id v Hv). reflexivity.
  - apply calls_of_app. rewrite set_speed_run.
    rewrite (clamp_speed_id (SFopp v)) by (rewrite speed_in_range_opp; exact Hv).
    cbn [snd hw_log]. f_equal. unfold level_writes.
    change (set_motor_speed (SFopp v) (this w))
      with (set_motor_speed (SFopp (motor_speed m)) m).
    rewrite (levels_of_opp m Hv Hp). reflexivity.
Qed.

Lemma reversed_speed_swaps_levels_witness :
  let w := after init (boot SLOW_DECAY) in
  calls_of (set_speed (ratio 3 4)) w = level_writes (this w) (5000, 1250)
  /\ exists a b,
       calls_of (set_speed (ratio 3 4)) w = level_writes (this w) (a, b)
       /\ calls_of (set_speed (SFopp (ratio 3 4))) w = level_writes (this w) (b, a).
Proof.
  split; [reflexivity |].
  exact (reversed_speed_swaps_levels (after init (boot SLOW_DECAY)) (ratio 3 4)
           eq_refl eq_refl).
Defined.

(** ** What the quantiser returns *)

Lemma factor_step_prime (d p d' p' : Z) :
  1 <= p <= MAX_PWM_PERIOD ->
  factor_step d p = Some (d', p') ->
  exists q, (q = 2 \/ q = 3 \/ q = 5) /\ d' = d / q /\ p' = p * q.
Proof.
  unfold MAX_PWM_PERIOD. intros Hp H. unfold factor_step in H.
  destruct (gate5 d p) eqn:G5; [| destruct (gate3 d p) eqn:G3; [| destruct (gate2 d p) eqn:G2]].
  - apply gate5_spec in G5. unfold MAX_PWM_PERIOD in G5. injection H as <- <-.
    exists 5. rewrite to_uint16_id by uint16_lia. auto.
  - apply gate3_spec in G3. unfold MAX_PWM_PERIOD in G3. injection H as <- <-.
    exists 3. rewrite to_uint16_id by uint16_lia. auto.
  - apply gate2_spec in G2. unfold MAX_PWM_PERIOD in G2. injection H as <- <-.
    exists 2. rewrite to_uint16_id by uint16_lia. auto.
  - discriminate H.
Qed.

Lemma smooth235_mul (p q : Z) :
  smooth235 p -> q = 2 \/ q = 3 \/ q = 5 -> smooth235 (p * q).
Proof.
  intros (a & b & c & ->) [-> | [-> | ->]].
  - exists (S a), b, c. rewrite Nat2Z.inj_succ, Z.pow_succ_r by lia. ring.
  - exists a, (S b), c. rewrite Nat2Z.inj_succ, Z.pow_succ_r by lia. ring.
  - exists a, b, (S c). rewrite Nat2Z.inj_succ, Z.pow_succ_r by lia. ring.
Qed.

(** Along a run the divider is the starting divider divided by the
    period, and the period is a product of the primes tried. *)
Lemma factor_run_quotient (d0 : Z) (n : nat) : forall s r,
  factor_run n s r ->
  1 <= snd s <= MAX_PWM_PERIOD -> fst s = d0 / snd s -> smooth235 (snd s) ->
  fst r = d0 / snd r /\ smooth235 (snd r).
Proof.
  induction n as [| n IH]; intros s r H Hs Hq Hsm.
  - inversion H; subst. split; assumption.
  - inversion H as [| k d p d1 p1 r' Hs1 Hr1]; subst. cbn [fst snd] in *.
    destruct (factor_step_progress d p d1 p1 Hs Hs1) as (_ & Hp1 & _).
    destruct (factor_step_prime d p d1 p1 Hs Hs1) as (q & Hq3 & Ed & Ep).
    apply (IH _ _ Hr1); cbn [fst snd].
    + lia.
    + rewrite Ed, Ep, Hq. apply Z.div_div; lia.
    + rewrite Ep. apply smooth235_mul; assumption.
Qed.

Lemma factor_run_keeps_16 (n : nat) : forall s r,
  factor_run n s r ->
  1 <= snd s <= MAX_PWM_PERIOD -> 16 <= fst s -> 16 <= fst r.
Proof.
  induction n as [| n IH]; intros s r H Hs Hf.
  - inversion H; subst. exact Hf.
  - inversion H as [| k d p d1 p1 r' Hs1 Hr1]; subst. cbn [fst snd] in *.
    destruct (factor_step_progress d p d1 p1 Hs Hs1) as (_ & Hp1 & Hd1).
    apply (IH _ _ Hr1); cbn [fst snd]; lia.
Qed.

Lemma loop_exit_facts (d0 d p : Z) :
  loop_exit d0 (d, p) ->
  1 <= p <= MAX_PWM_PERIOD
  /\ d = d0 / p
  /\ smooth235 p
  /\ (d < 32 \/ 32768 <= p)
  /\ (16 <= d0 -> 16 <= d).
Proof.
  intros (n & Hrun & Hend). cbn [fst snd] in Hend.
  assert (H1 : 1 <= snd (d0, 1) <= MAX_PWM_PERIOD) by (unfold MAX_PWM_PERIOD; cbn; lia).
  destruct (factor_run_invariant n _ _ Hrun H1) as (Hp & _).
  destruct (factor_run_quotient d0 n _ _ Hrun H1) as (Hq & Hsm).
  { cbn. rewrite Z.div_1_r. reflexivity. }
  { exists 0%nat, 0%nat, 0%nat. reflexivity. }
  cbn [fst snd] in *.
  split; [exact Hp |]. split; [exact Hq |]. split; [exact Hsm |].
  split.
  - unfold factor_step in Hend.
    destruct (gate5 d p); [discriminate |]. destruct (gate3 d p); [discriminate |].
    destruct (gate2 d p) eqn:G2; [discriminate |].
    destruct (Z_lt_le_dec d 32) as [Hd | Hd]; [left; exact Hd | right].
    destruct (Z_lt_le_dec p 32768) as [Hlt | Hge]; [| exact Hge].
    exfalso. assert (G : gate2 d p = true)
      by (apply gate2_spec; unfold MAX_PWM_PERIOD; lia).
    congruence.
  - intros Hd0.
    apply (factor_run_keeps_16 _ _ _ Hrun); cbn [fst snd];
      [unfold MAX_PWM_PERIOD; lia | exact Hd0].
Qed.

(** X5: when quantisation succeeds, the divider returned is the initial
    16.4 divider divided by the period (integer division), so
    period * div16 approximates the initial divider from below to within
    one period; the period is a product of powers of 2, 3 and 5; and the
    loop has traded as much divider for period as it can: either the
    divider is below 2.0 (div16 < 32) or the period is at least 32768. *)
Theorem calculate_pwm_factors_quotient
  (source_hz : Z) (freq : Float32.float) (period div16 : Z) :
  calculate_pwm_factors source_hz freq = Some (period, div16) ->
  let d0 := initial_div16 source_hz freq in
  div16 = d0 / period
  /\ period * div16 <= d0 < period * (div16 + 1)
  /\ smooth235 period
  /\ (div16 < 32 \/ 32768 <= period).
Proof.
  intros H d0.
  destruct (calculate_pwm_factors_unfold source_hz freq) as (d & p & Hexit & _ & Hcalc).
  rewrite Hcalc in H.
  destruct (frequency_valid source_hz freq); [| discriminate].
  destruct ((16 <=? d) && (d <? 256 * 16)); [| discriminate].
  injection H as <- <-.
  destruct (loop_exit_facts _ _ _ Hexit) as (Hp & Hq & Hsm & Hres & _).
  fold d0 in Hq. unfold MAX_PWM_PERIOD in Hp.
  split; [exact Hq |]. split; [| split; assumption].
  rewrite Hq.
  assert (Hm := Z.mul_div_le d0 p ltac:(lia)).
  assert (Hm' := Z.mul_succ_div_gt d0 p ltac:(lia)). lia.
Qed.

Lemma calculate_pwm_factors_quotient_witness :
  calculate_pwm_factors pico_clock (Float32.of_Z 30000) = Some (3600, 18)
  /\ initial_div16 pico_clock (Float32.of_Z 30000) = 66666
  /\ 18 = initial_div16 pico_clock (Float32.of_Z 30000) / 3600
  /\ smooth235 3600.
Proof.
  split; [reflexivity |]. split; [reflexivity |].
  split.
  - exact (proj1 (calculate_pwm_factors_quotient pico_clock (Float32.of_Z 30000) 3600 18
                    eq_refl)).
  - exact (proj1 (proj2 (proj2
             (calculate_pwm_factors_quotient pico_clock (Float32.of_Z 30000) 3600 18
                eq_refl)))).
Defined.

Lemma window_spec (d : Z) :
  (16 <=? d) && (d <? 256 * 16) = true <-> 16 <= d < 4096.
Proof.
  rewrite andb_true_iff, Z.leb_le, Z.ltb_lt. change (256 * 16) with 4096. tauto.
Qed.

(** X6: which initial dividers quantise.  With the frequency guard passed,
    every initial 16.4 divider from 16 up to (but not including) 2^27
    gives a result; an initial divider below 16, or of 4096 * 65535 and
    more, never does, so a success implies
    16 <= initial divider < 4096 * 65535. *)
Theorem calculate_pwm_factors_divider_range (source_hz : Z) (freq : Float32.float) :
  let d0 := initial_div16 source_hz freq in
  (frequency_valid source_hz freq = true -> 16 <= d0 < 2 ^ 27 ->
     exists period div16,
       calculate_pwm_factors source_hz freq = Some (period, div16))
  /\ (d0 < 16 \/ 4096 * 65535 <= d0 -> calculate_pwm_factors source_hz freq = None)
  /\ (forall r, calculate_pwm_factors source_hz freq = Some r ->
        16 <= d0 < 4096 * 65535).
Proof.
  intros d0.
  destruct (calculate_pwm_factors_unfold source_hz freq) as (d & p & Hexit & _ & Hcalc).
  destruct (loop_exit_facts _ _ _ Hexit) as (Hp & Hq & _ & Hres & H16).
  fold d0 in Hq, H16. unfold MAX_PWM_PERIOD in Hp.
  assert (Hfail : d0 < 16 \/ 4096 * 65535 <= d0 -> ~ (16 <= d < 4096)).
  { intros [Hlo | Hhi] [Hd1 Hd2].
    - assert (d < 16); [| lia]. rewrite Hq. apply Z.div_lt_upper_bound; lia.
    - assert (4096 <= d); [| lia]. rewrite Hq. apply Z.div_le_lower_bound; lia. }
  split; [| split].
  - intros Hg [Hlo Hhi]. change (2 ^ 27) with 134217728 in Hhi.
    exists p, d. rewrite Hcalc, Hg.
    assert (Hd : 16 <= d < 4096).
    { split; [apply H16; exact Hlo |].
      destruct Hres as [Hd | Hp']; [lia |].
      rewrite Hq. apply Z.div_lt_upper_bound; lia. }
    apply window_spec in Hd. rewrite Hd. reflexivity.
  - intros Hout. rewrite Hcalc.
    destruct (frequency_valid source_hz freq); [| reflexivity].
    destruct ((16 <=? d) && (d <? 256 * 16)) eqn:E; [| reflexivity].
    exfalso. apply (Hfail Hout). apply window_spec. exact E.
  - intros r Hr. rewrite Hcalc in Hr.
    destruct (frequency_valid source_hz freq); [| discriminate].
    destruct ((16 <=? d) && (d <? 256 * 16)) eqn:E; [| discriminate].
    apply window_spec in E.
    destruct (Z_lt_le_dec d0 16) as [Hlo | Hlo]; [exfalso; apply Hfail; auto |].
    destruct (Z_lt_le_dec d0 (4096 * 65535)) as [Hhi | Hhi]; [lia |].
    exfalso. apply Hfail; auto.
Qed.

Lemma calculate_pwm_factors_divider_range_witness :
  initial_div16 pico_clock (Float32.of_Z 1) = 2000000000
  /\ calculate_pwm_factors pico_clock (Float32.of_Z 1) = None
  /\ exists period div16,
       calculate_pwm_factors pico_clock (Float32.of_Z 20) = Some (period, div16).
Proof.
  split; [vm_compute; reflexivity |]. split.
  - apply (proj1 (proj2 (calculate_pwm_factors_divider_range pico_clock (Float32.of_Z 1)))).
    right. vm_compute. discriminate.
  - apply (proj1 (calculate_pwm_factors_divider_range pico_clock (Float32.of_Z 20))).
    + vm_compute. reflexivity.
    + vm_compute. split; [discriminate | reflexivity].
Defined.

(** ** The registers behind the calls *)

Lemma clkdiv_float_all : Zforall_range clkdiv_float_ok 16 (Z.to_nat 4080) = true.
Proof. vm_compute. reflexivity. Qed.

Lemma clkdiv_float (d : Z) :
  16 <= d < 4096 ->
  Qeq_bool (Float32.to_Q (Float32.div (Float32.of_Z d) (Float32.of_Z 16))) (d # 16) = true
  /\ Float32.to_uint32
       (Float32.mul (Float32.div (Float32.of_Z d) (Float32.of_Z 16)) (Float32.of_Z 16))
     = d.
Proof.
  intros Hd.
  assert (H : clkdiv_float_ok d = true).
  { apply (Zforall_range_spec _ _ 16 d clkdiv_float_all). rewrite Z2Nat.id by lia. lia. }
  unfold clkdiv_float_ok in H. cbv zeta in H.
  apply andb_true_iff in H as [H1 H2]. apply Z.eqb_eq in H2. split; assumption.
Qed.

Lemma div16_split_all : Zforall_range div16_split_ok 16 (Z.to_nat 4080) = true.
Proof. vm_compute. reflexivity. Qed.

Lemma div16_split (d : Z) :
  16 <= d < 4096 ->
  let i := to_uint8 (to_uint8 (Z.shiftr d 4)) in
  let f := to_uint8 (to_uint8 (d mod 16)) in
  1 <= i <= 255 /\ 0 <= f <= 15 /\ 16 * i + f = d /\ Z.lor (Z.shiftl i 4) f = d.
Proof.
  intros Hd i f.
  assert (H : div16_split_ok d = true).
  { apply (Zforall_range_spec _ _ 16 d div16_split_all). rewrite Z2Nat.id by lia. lia. }
  unfold div16_split_ok in H. cbv zeta in H. fold i f in H.
  repeat (apply andb_true_iff in H as [H ?]).
  repeat match goal with
         | E : (_ <=? _) = true |- _ => apply Z.leb_le in E
         | E : (_ =? _) = true |- _ => apply Z.eqb_eq in E
         end.
  repeat split; assumption.
Qed.

Lemma apply_calls_app (r : pwm_regs) (a b : list hw_call) :
  apply_calls r (a ++ b) = apply_calls (apply_calls r a) b.
Proof. apply fold_left_app. Qed.

Lemma regs_of_extend (w w' : World) (calls : list hw_call) :
  hw_log w' = hw_log w ++ calls -> regs_of w' = apply_calls (regs_of w) calls.
Proof. intros H. unfold regs_of. rewrite H. apply apply_calls_app. Qed.

(** Level writes leave wrap and divider alone and set the two levels. *)
Lemma level_writes_regs (r : pwm_regs) (m : Motor) (lv : Z * Z) :
  let r' := apply_calls r (level_writes m lv) in
  (forall g, top_of r' g = top_of r g)
  /\ (forall g, div_of r' g = div_of r g)
  /\ level_of r' (pin_neg m) = snd lv
  /\ (channels_distinct m = true -> level_of r' (pin_pos m) = fst lv).
Proof.
  intros r'. unfold r', apply_calls, level_writes, top_of, div_of, level_of,
    channels_distinct.
  set (sp := pwm_gpio_to_slice_num (pin_pos m)).
  set (sn := pwm_gpio_to_slice_num (pin_neg m)).
  set (cp := pwm_gpio_to_channel (pin_pos m)).
  set (cn := pwm_gpio_to_channel (pin_neg m)).
  cbn [fold_left apply_call reg_top reg_div reg_cc]. fold sp sn cp cn.
  split; [reflexivity |]. split; [reflexivity |].
  rewrite (Z.eqb_refl sn), (Z.eqb_refl cn), (Z.eqb_refl sp), (Z.eqb_refl cp).
  cbn [andb]. split; [reflexivity |].
  intros Hd. apply negb_true_iff in Hd. rewrite Hd. reflexivity.
Qed.

(** Wrap writes set the wrap register of both pins' slices and leave
    dividers and levels alone; divider writes likewise. *)
Lemma wrap_writes_regs (r : pwm_regs) (m : Motor) (period : Z) :
  let r' := apply_calls r (wrap_writes m period) in
  top_of r' (pin_pos m) = to_uint16 (period - 1)
  /\ top_of r' (pin_neg m) = to_uint16 (period - 1)
  /\ (forall g, div_of r' g = div_of r g)
  /\ (forall g, level_of r' g = level_of r g).
Proof.
  intros r'. unfold r', apply_calls, wrap_writes, top_of, div_of, level_of.
  set (sp := pwm_gpio_to_slice_num (pin_pos m)).
  set (sn := pwm_gpio_to_slice_num (pin_neg m)).
  cbv zeta.
  destruct (sn =? sp) eqn:E;
    cbn [fold_left apply_call reg_top reg_div reg_cc]; fold sp sn;
    rewrite ?(Z.eqb_refl sp), ?(Z.eqb_refl sn), ?E; repeat split; try reflexivity.
  destruct (sp =? sn); reflexivity.
Qed.

Lemma clkdiv_writes_regs (r : pwm_regs) (m : Motor) (div16 : Z) :
  let r' := apply_calls r (clkdiv_writes m div16) in
  let v := Z.lor (Z.shiftl (to_uint8 (to_uint8 (Z.shiftr div16 4))) 4)
                 (to_uint8 (to_uint8 (div16 mod 16))) in
  div_of r' (pin_pos m) = v
  /\ div_of r' (pin_neg m) = v
  /\ (forall g, top_of r' g = top_of r g)
  /\ (forall g, level_of r' g = level_of r g).
Proof.
  intros r' v. unfold r', v, apply_calls, clkdiv_writes, top_of, div_of, level_of.
  set (sp := pwm_gpio_to_slice_num (pin_pos m)).
  set (sn := pwm_gpio_to_slice_num (pin_neg m)).
  cbv zeta.
  destruct (sn =? sp) eqn:E;
    cbn [fold_left apply_call reg_top reg_div reg_cc]; fold sp sn;
    rewrite ?(Z.eqb_refl sp), ?(Z.eqb_refl sn), ?E; repeat split; try reflexivity.
  destruct (sp =? sn); reflexivity.
Qed.

(** The registers after the calls of a successful [set_frequency]. *)
Lemma set_frequency_regs
  (r : pwm_regs) (m m' : Motor) (period div16 : Z) (lv : Z * Z) (pre : bool) :
  pin_pos m' = pin_pos m -> pin_neg m' = pin_neg m ->
  1 <= period <= MAX_PWM_PERIOD -> 16 <= div16 < 256 * 16 ->
  let r' := apply_calls r
              (clkdiv_writes m div16 ++
               (if pre then level_writes m' lv ++ wrap_writes m period
                else wrap_writes m period ++ level_writes m' lv)) in
  top_of r' (pin_pos m) = period - 1
  /\ top_of r' (pin_neg m) = period - 1
  /\ div_of r' (pin_pos m) = div16
  /\ div_of r' (pin_neg m) = div16
  /\ level_of r' (pin_neg m) = snd lv
  /\ (channels_distinct m = true -> level_of r' (pin_pos m) = fst lv).
Proof.
  intros Hpp Hpn Hp Hd r'. unfold MAX_PWM_PERIOD in Hp.
  assert (Hcd : channels_distinct m' = channels_distinct m)
    by (unfold channels_distinct; rewrite Hpp, Hpn; reflexivity).
  destruct (div16_split div16 Hd) as (_ & _ & _ & Hlor).
  destruct (clkdiv_writes_regs r m div16) as (C1 & C2 & C3 & C4).
  set (r1 := apply_calls r (clkdiv_writes m div16)) in *.
  assert (Hw : to_uint16 (period - 1) = period - 1) by (apply to_uint16_id; uint16_lia).
  unfold r'. rewrite apply_calls_app. fold r1.
  destruct pre; rewrite apply_calls_app.
  - destruct (level_writes_regs r1 m' lv) as (L1 & L2 & L3 & L4).
    set (r2 := apply_calls r1 (level_writes m' lv)) in *.
    destruct (wrap_writes_regs r2 m period) as (W1 & W2 & W3 & W4).
    rewrite W1, W2, !W3, !W4, !L2, C1, C2, Hw, Hlor.
    rewrite Hpp, Hpn, Hcd in *. repeat split; try reflexivity; assumption.
  - destruct (wrap_writes_regs r1 m period) as (W1 & W2 & W3 & W4).
    set (r2 := apply_calls r1 (wrap_writes m period)) in *.
    destruct (level_writes_regs r2 m' lv) as (L1 & L2 & L3 & L4).
    rewrite !L1, !L2, W1, W2, !W3, C1, C2, Hw, Hlor.
    rewrite Hpp, Hpn, Hcd in *. repeat split; try reflexivity; assumption.
Qed.

(** ** [init] *)

Lemma init_run (w : World) (period div16 : Z) :
  calculate_pwm_factors (clk_sys_hz w) (pwm_frequency (this w)) = Some (period, div16) ->
  let m := this w in
  let cfg := init_config period div16 in
  let m' := set_pwm_cfg cfg (set_pwm_period period m) in
  init w
  = (true,
     {| this := m';
        clk_sys_hz := clk_sys_hz w;
        hw_log := hw_log w ++ init_setup_calls m cfg ++ level_writes m' (levels_of m') |}).
Proof.
  intros Hq m cfg m'.
  destruct (calculate_pwm_factors_range _ _ _ _ Hq) as [Hp Hd].
  unfold MAX_PWM_PERIOD in Hp.
  assert (Ecfg : pwm_config_set_clkdiv
                   (pwm_config_set_wrap pwm_get_default_config (period - 1))
                   (Float32.div (Float32.of_Z div16) (Float32.of_Z 16)) = cfg).
  { unfold pwm_config_set_clkdiv, pwm_config_set_wrap, cfg, init_config.
    cbn [cfg_csr cfg_div cfg_top pwm_get_default_config].
    rewrite (proj2 (clkdiv_float div16 Hd)).
    rewrite to_uint16_id by uint16_lia. reflexivity. }
  unfold init, bind, get_this, clock_get_hz. cbn [fst snd this clk_sys_hz]. rewrite Hq.
  cbv zeta. rewrite Ecfg.
  unfold modify_this, pwm_init, gpio_set_function, hw, ret.
  cbn [this clk_sys_hz hw_log]. fold m. fold m'.
  rewrite update_pwm_run. unfold with_log. cbn [this clk_sys_hz hw_log fst snd].
  unfold init_setup_calls. repeat rewrite <- app_assoc. reflexivity.
Qed.

(** X7: a successful [init].  When the stored frequency quantises to
    (period, div16), [init] returns true, stores the period, and
    configures both slices with wrap = period - 1 and divider = div16: the
    float (float)div16 / 16.0f handed to the SDK is exactly div16/16 and
    comes back as div16.  It leaves frequency, speed, decay mode and pins
    as they were, and makes six calls: pwm_init and gpio_set_function for
    the positive pin, the same for the negative pin, then the two level
    writes for the stored speed (a speed set before init is honoured). *)
Theorem init_success (w : World) (period div16 : Z) :
  calculate_pwm_factors (clk_sys_hz w) (pwm_frequency (this w)) = Some (period, div16) ->
  let m := this w in
  let w' := after init w in
  let m' := this w' in
  fst (init w) = true
  /\ pwm_period m' = period
  /\ pwm_cfg m' = {| cfg_csr := 0; cfg_div := div16; cfg_top := period - 1 |}
  /\ Qeq_bool (Float32.to_Q (Float32.div (Float32.of_Z div16) (Float32.of_Z 16)))
       (div16 # 16) = true
  /\ (pwm_frequency m' = pwm_frequency m /\ motor_speed m' = motor_speed m
      /\ motor_decay_mode m' = motor_decay_mode m
      /\ pin_pos m' = pin_pos m /\ pin_neg m' = pin_neg m)
  /\ calls_of init w
     = [pwm_init_call (pwm_gpio_to_slice_num (pin_pos m)) (pwm_cfg m') true;
        gpio_set_function_call (pin_pos m) GPIO_FUNC_PWM;
        pwm_init_call (pwm_gpio_to_slice_num (pin_neg m)) (pwm_cfg m') true;
        gpio_set_function_call (pin_neg m) GPIO_FUNC_PWM;
        pwm_set_gpio_level_call (pin_pos m) (fst (levels_of m'));
        pwm_set_gpio_level_call (pin_neg m) (snd (levels_of m'))].
Proof.
  intros Hq m w' m'.
  destruct (calculate_pwm_factors_range _ _ _ _ Hq) as [_ Hd].
  assert (Hrun := init_run w period div16 Hq). cbv zeta in Hrun.
  unfold m', w', after. rewrite Hrun. cbn [fst snd this].
  split; [reflexivity |]. split; [reflexivity |]. split; [reflexivity |].
  split; [exact (proj1 (clkdiv_float div16 Hd)) |].
  split; [repeat split |].
  apply calls_of_app. rewrite Hrun. reflexivity.
Qed.

Lemma init_success_witness :
  fst (init (boot SLOW_DECAY)) = true
  /\ pwm_period (this (after init (boot SLOW_DECAY))) = 5000
  /\ pwm_cfg (this (after init (boot SLOW_DECAY)))
     = {| cfg_csr := 0; cfg_div := 16; cfg_top := 4999 |}.
Proof.
  split;
    [exact (proj1 (init_success (boot SLOW_DECAY) 5000 16 eq_refl)) |].
  split;
    [exact (proj1 (proj2 (init_success (boot SLOW_DECAY) 5000 16 eq_refl)))
    |exact (proj1 (proj2 (proj2 (init_success (boot SLOW_DECAY) 5000 16 eq_refl))))].
Defined.

(** The registers after the calls of a successful [init]. *)
Lemma init_regs (r : pwm_regs) (m m' : Motor) (period div16 : Z) (lv : Z * Z) :
  pin_pos m' = pin_pos m -> pin_neg m' = pin_neg m ->
  let r' := apply_calls r
              (init_setup_calls m (init_config period div16) ++ level_writes m' lv) in
  top_of r' (pin_pos m) = period - 1
  /\ top_of r' (pin_neg m) = period - 1
  /\ div_of r' (pin_pos m) = div16
  /\ div_of r' (pin_neg m) = div16
  /\ level_of r' (pin_neg m) = snd lv
  /\ (channels_distinct m = true -> level_of r' (pin_pos m) = fst lv).
Proof.
  intros Hpp Hpn r'.
  assert (Hcd : channels_distinct m' = channels_distinct m)
    by (unfold channels_distinct; rewrite Hpp, Hpn; reflexivity).
  unfold r'. rewrite apply_calls_app.
  set (r1 := apply_calls r (init_setup_calls m (init_config period div16))).
  destruct (level_writes_regs r1 m' lv) as (L1 & L2 & L3 & L4).
  rewrite Hpp, Hpn, Hcd in *. rewrite !L1, !L2.
  assert (H1 : top_of r1 (pin_pos m) = period - 1 /\ top_of r1 (pin_neg m) = period - 1
               /\ div_of r1 (pin_pos m) = div16 /\ div_of r1 (pin_neg m) = div16).
  { unfold r1, apply_calls, init_setup_calls, init_config, top_of, div_of.
    set (sp := pwm_gpio_to_slice_num (pin_pos m)).
    set (sn := pwm_gpio_to_slice_num (pin_neg m)).
    cbn [fold_left apply_call reg_top reg_div reg_cc cfg_top cfg_div]. fold sp sn.
    rewrite (Z.eqb_refl sn). destruct (sp =? sn); repeat split; try reflexivity;
      rewrite (Z.eqb_refl sp); reflexivity. }
  destruct H1 as (T1 & T2 & D1 & D2).
  repeat split; assumption.
Qed.

(** ** The registers mirror the object *)

Lemma after_seq {A B} (c : M A) (k : M B) (w : World) :
  after (c ;; k)%motor w = after k (after c w).
Proof. unfold after, bind. destruct (c w). reflexivity. Qed.

(** A call that only appends the two level writes for the new object,
    with pins, period and frequency kept. *)
Lemma level_update_sync (w w' : World) (lv : Z * Z) :
  clk_sys_hz w' = clk_sys_hz w ->
  hw_log w' = hw_log w ++ level_writes (this w') lv ->
  pin_pos (this w') = pin_pos (this w) -> pin_neg (this w') = pin_neg (this w) ->
  pwm_period (this w') = pwm_period (this w) ->
  pwm_frequency (this w') = pwm_frequency (this w) ->
  timing_in_sync w ->
  timing_in_sync w'
  /\ (channels_distinct (this w) = true -> lv = levels_of (this w') -> levels_in_sync w').
Proof.
  intros Hclk Hlog Hpp Hpn Hper Hfreq (div16 & Hq & T1 & T2 & D1 & D2).
  assert (Hcd : channels_distinct (this w') = channels_distinct (this w))
    by (unfold channels_distinct; rewrite Hpp, Hpn; reflexivity).
  destruct (level_writes_regs (regs_of w) (this w') lv) as (L1 & L2 & L3 & L4).
  rewrite <- (regs_of_extend w w' _ Hlog) in L1, L2, L3, L4.
  split.
  - exists div16. unfold timing_in_sync. cbv zeta.
    rewrite Hclk, Hfreq, Hper, Hpp, Hpn, !L1, !L2. repeat split; assumption.
  - intros Hd ->. unfold levels_in_sync. cbv zeta.
    split; [apply L4; rewrite Hcd; exact Hd | exact L3].
Qed.

Lemma run_op_sync (o : motor_op) (w : World) (b : bool) :
  timing_in_sync w ->
  let w' := after (run_op o) w in
  timing_in_sync w'
  /\ clk_sys_hz w' = clk_sys_hz w
  /\ channels_distinct (this w') = channels_distinct (this w)
  /\ motor_decay_mode (this w') = mode_after o (motor_decay_mode (this w))
  /\ (channels_distinct (this w) = true ->
      (levels_in_sync w <-> b = true) ->
      (levels_in_sync w'
       <-> synced_step (clk_sys_hz w) (motor_decay_mode (this w)) b o = true)).
Proof.
  intros Ht w'.
  destruct o as [v | f | d | |]; unfold w', after, run_op; cbn [mode_after synced_step].
  - (* set_speed *)
    rewrite set_speed_run. cbn [snd].
    match goal with |- timing_in_sync ?W /\ _ =>
      destruct (level_update_sync w W (levels_of (this W))) as [H1 H2];
        try reflexivity; try exact Ht end.
    split; [exact H1 |]. do 3 (split; [reflexivity |]).
    intros Hcd _. split; [reflexivity | intros _; apply H2; [exact Hcd | reflexivity]].
  - (* set_frequency *)
    unfold bind, ret.
    destruct (calculate_pwm_factors (clk_sys_hz w) f) as [[period div16] |] eqn:Hq.
    + rewrite (set_frequency_run w f period div16 Hq). cbn [snd].
      destruct (calculate_pwm_factors_range _ _ _ _ Hq) as [Hp Hd].
      match goal with |- timing_in_sync ?W /\ _ => set (W' := W) end.
      destruct (set_frequency_regs (regs_of w) (this w) (this W') period div16
                  (levels_of (this W')) (period >? pwm_period (this w))
                  eq_refl eq_refl Hp Hd) as (T1 & T2 & D1 & D2 & L1 & L2).
      assert (E := regs_of_extend w W'
                     (clkdiv_writes (this w) div16 ++
                      (if period >? pwm_period (this w)
                       then level_writes (this W') (levels_of (this W'))
                            ++ wrap_writes (this w) period
                       else wrap_writes (this w) period
                            ++ level_writes (this W') (levels_of (this W'))))
                     eq_refl).
      rewrite <- E in T1, T2, D1, D2, L1, L2.
      split; [| do 3 (split; [reflexivity |])].
      * exists div16. unfold timing_in_sync. cbv zeta.
        cbn [W' this clk_sys_hz pwm_frequency pwm_period pin_pos pin_neg
             set_pwm_frequency set_pwm_period] in *.
        repeat split; assumption.
      * intros Hcd _. split; [reflexivity |]. intros _.
        unfold levels_in_sync. cbv zeta.
        split; [apply L2; exact Hcd | exact L1].
    + rewrite (set_frequency_fail w f Hq). cbn [snd].
      split; [exact Ht |]. do 3 (split; [reflexivity |]). intros _ Hb. exact Hb.
  - (* set_decay_mode *)
    unfold set_decay_mode, bind, modify_this. rewrite update_pwm_run. cbn [snd].
    match goal with |- timing_in_sync ?W /\ _ =>
      destruct (level_update_sync w W (levels_of (this W))) as [H1 H2];
        try reflexivity; try exact Ht end.
    split; [exact H1 |]. do 3 (split; [reflexivity |]).
    intros Hcd _. split; [reflexivity | intros _; apply H2; [exact Hcd | reflexivity]].
  - (* stop *)
    rewrite stop_run, set_speed_run. cbn [snd].
    match goal with |- timing_in_sync ?W /\ _ =>
      destruct (level_update_sync w W (levels_of (this W))) as [H1 H2];
        try reflexivity; try exact Ht end.
    split; [exact H1 |]. do 3 (split; [reflexivity |]).
    intros Hcd _. split; [reflexivity | intros _; apply H2; [exact Hcd | reflexivity]].
  - (* disable *)
    rewrite disable_run. cbn [snd].
    match goal with |- timing_in_sync ?W /\ _ => set (W' := W) end.
    destruct (level_update_sync w W' (0, 0)) as [H1 _];
      try reflexivity; try exact Ht.
    split; [exact H1 |]. do 3 (split; [reflexivity |]).
    intros Hcd _.
    destruct Ht as (d0 & Hq0 & _).
    destruct (calculate_pwm_factors_range _ _ _ _ Hq0) as [Hp0 _].
    unfold MAX_PWM_PERIOD in Hp0.
    destruct (level_writes_regs (regs_of w) (this w) (0, 0)) as (_ & _ & L3 & L4).
    rewrite <- (regs_of_extend w W' (level_writes (this w) (0, 0)) eq_refl) in L3, L4.
    specialize (L4 Hcd). cbn [fst snd] in L3, L4.
    unfold levels_in_sync. cbv zeta.
    change (pin_pos (this W')) with (pin_pos (this w)).
    change (pin_neg (this W')) with (pin_neg (this w)).
    rewrite L3, L4, levels_of_eq. cbv zeta.
    change (motor_speed (this W')) with Float32.zero.
    change (pwm_period (this W')) with (pwm_period (this w)).
    change (motor_decay_mode (this W')) with (motor_decay_mode (this w)).
    assert (Hz : signed_duty_cycle_of Float32.zero (pwm_period (this w)) = 0)
      by (apply signed_duty_cycle_zero; uint16_lia).
    rewrite Hz.
    cbn [Z.geb Z.compare].
    destruct (motor_decay_mode (this w) =? SLOW_DECAY); cbn [fst snd negb].
    + rewrite (to_uint16_id (pwm_period (this w))) by uint16_lia.
      split; [intros [H _]; lia | intros H; discriminate H].
    + split; [reflexivity | intros _; split; reflexivity].
Qed.

Lemma run_ops_sync (ops : list motor_op) : forall (w : World) (b : bool),
  timing_in_sync w ->
  let w' := after (run_ops ops) w in
  timing_in_sync w'
  /\ (channels_distinct (this w) = true ->
      (levels_in_sync w <-> b = true) ->
      (levels_in_sync w'
       <-> synced_after (clk_sys_hz w) (motor_decay_mode (this w)) b ops = true)).
Proof.
  induction ops as [| o rest IH]; intros w b Ht.
  - cbn. split; [exact Ht |]. intros _ Hb. exact Hb.
  - cbn [run_ops synced_after]. cbv zeta. rewrite after_seq.
    destruct (run_op_sync o w b Ht) as (Ht' & Hclk & Hcd' & Hmode & Hb').
    destruct (IH (after (run_op o) w)
                 (synced_step (clk_sys_hz w) (motor_decay_mode (this w)) b o) Ht')
      as (Ht'' & Hl'').
    split; [exact Ht'' |].
    intros Hcd Hb. rewrite Hclk, Hmode, Hcd' in Hl''.
    apply Hl''; [exact Hcd |]. apply Hb'; assumption.
Qed.

Lemma init_sync (w : World) :
  fst (init w) = true ->
  timing_in_sync (after init w)
  /\ clk_sys_hz (after init w) = clk_sys_hz w
  /\ motor_decay_mode (this (after init w)) = motor_decay_mode (this w)
  /\ channels_distinct (this (after init w)) = channels_distinct (this w)
  /\ (channels_distinct (this w) = true -> levels_in_sync (after init w)).
Proof.
  intros Hok.
  destruct (calculate_pwm_factors (clk_sys_hz w) (pwm_frequency (this w)))
    as [[period div16] |] eqn:Hq;
    [| rewrite (init_fail w Hq) in Hok; discriminate Hok].
  assert (Hrun := init_run w period div16 Hq). cbv zeta in Hrun.
  unfold after. rewrite Hrun. cbn [snd].
  match goal with |- timing_in_sync ?W /\ _ => set (W' := W) end.
  destruct (init_regs (regs_of w) (this w) (this W') period div16 (levels_of (this W'))
              eq_refl eq_refl) as (T1 & T2 & D1 & D2 & L1 & L2).
  assert (E := regs_of_extend w W'
                 (init_setup_calls (this w) (init_config period div16)
                  ++ level_writes (this W') (levels_of (this W'))) eq_refl).
  rewrite <- E in T1, T2, D1, D2, L1, L2.
  split; [| do 3 (split; [reflexivity |])].
  - exists div16. unfold timing_in_sync. cbv zeta.
    cbn [W' this clk_sys_hz pwm_frequency pwm_period pin_pos pin_neg
         set_pwm_cfg set_pwm_period] in *.
    repeat split; assumption.
  - intros Hcd. unfold levels_in_sync. cbv zeta.
    split; [apply L2; exact Hcd | exact L1].
Qed.

(** X8: after a successful [init], whatever sequence of set_speed,
    set_frequency (successful or not), set_decay_mode, stop and disable
    calls follows, the stored period is the quantisation of the stored
    frequency, and the wrap and divider registers of both pins hold
    period - 1 and that quantisation's divider.  When the two pins drive
    different channels, the two level registers hold the levels the decay
    mapping gives for the stored speed, period and mode in every case but
    one: the last call that wrote levels (a set_speed, set_decay_mode,
    stop, disable or successful set_frequency) was a disable made in
    SLOW_DECAY.  A successful set_frequency after a disable restores the
    levels; a failing one changes nothing. *)
Theorem registers_mirror_object (w : World) (ops : list motor_op) :
  fst (init w) = true ->
  let w' := after (init ;; run_ops ops)%motor w in
  timing_in_sync w'
  /\ (channels_distinct (this w) = true ->
      (levels_in_sync w'
       <-> synced_after (clk_sys_hz w) (motor_decay_mode (this w)) true ops = true)).
Proof.
  intros Hok w'. unfold w'. rewrite after_seq.
  destruct (init_sync w Hok) as (Ht & Hclk & Hmode & Hcd & Hl).
  destruct (run_ops_sync ops (after init w) true Ht) as (Ht' & Hl').
  split; [exact Ht' |].
  intros Hd. rewrite Hclk, Hmode, Hcd in Hl'.
  apply Hl'; [exact Hd |]. split; [reflexivity | intros _; exact (Hl Hd)].
Qed.

Lemma registers_mirror_object_witness :
  let ops := [op_set_speed (ratio 3 4); op_disable;
              op_set_frequency (Float32.of_Z 20000)] in
  let w' := after (init ;; run_ops ops)%motor (boot SLOW_DECAY) in
  let w'' := after (init ;; run_ops [op_set_speed (ratio 3 4); op_disable;
                                     op_set_frequency (ratio 1 2)])%motor
               (boot SLOW_DECAY) in
  fst (init (boot SLOW_DECAY)) = true
  /\ timing_in_sync w'
  /\ levels_in_sync w'
  /\ ~ levels_in_sync w''.
Proof.
  split; [reflexivity |].
  split; [| split].
  - exact (proj1 (registers_mirror_object (boot SLOW_DECAY)
                    [op_set_speed (ratio 3 4); op_disable;
                     op_set_frequency (Float32.of_Z 20000)]
                    eq_refl)).
  - exact (proj2 (proj2 (registers_mirror_object (boot SLOW_DECAY)
                    [op_set_speed (ratio 3 4); op_disable;
                     op_set_frequency (Float32.of_Z 20000)]
                    eq_refl) eq_refl) eq_refl).
  - intros H.
    assert (E := proj1 (proj2 (registers_mirror_object (boot SLOW_DECAY)
                    [op_set_speed (ratio 3 4); op_disable;
                     op_set_frequency (ratio 1 2)]
                    eq_refl) eq_refl) H).
    discriminate E.
Defined.

(** ** What [set_frequency] hands to the SDK *)

(** X9: on success [set_frequency] passes the divider as integer part
    div16 / 16, between 1 and 255, and fraction div16 mod 16, and the wrap
    value period - 1, between 0 and 65534: the conversions to uint8_t and
    uint16_t at the calls lose nothing.  Each is written once per slice
    (once only when both pins share a slice), the divider first, and the
    level writes come before the wrap writes exactly when the period
    grows. *)
Theorem set_frequency_arguments_exact
  (w : World) (freq : Float32.float) (period div16 : Z) :
  calculate_pwm_factors (clk_sys_hz w) freq = Some (period, div16) ->
  let m := this w in
  let m' := this (after (set_frequency freq) w) in
  let divs :=
    per_slice m (fun s => pwm_set_clkdiv_int_frac_call s (div16 / 16) (div16 mod 16)) in
  let wraps := per_slice m (fun s => pwm_set_wrap_call s (period - 1)) in
  let levels := level_writes m (levels_of m') in
  1 <= div16 / 16 <= 255
  /\ 0 <= div16 mod 16 <= 15
  /\ 0 <= period - 1 <= 65534
  /\ calls_of (set_frequency freq) w
     = divs ++ (if period >? pwm_period m then levels ++ wraps else wraps ++ levels).
Proof.
  intros Hq m m' divs wraps levels.
  destruct (calculate_pwm_factors_range _ _ _ _ Hq) as [Hp Hd].
  unfold MAX_PWM_PERIOD in Hp.
  destruct (div16_split div16 Hd) as (Hi & Hf & Hsum & _).
  assert (Ei : to_uint8 (to_uint8 (Z.shiftr div16 4)) = div16 / 16).
  { apply (Z.div_unique div16 16 _ (to_uint8 (to_uint8 (div16 mod 16)))); [left |]; lia. }
  assert (Ef : to_uint8 (to_uint8 (div16 mod 16)) = div16 mod 16).
  { apply (Z.mod_unique div16 16 (to_uint8 (to_uint8 (Z.shiftr div16 4)))); [left |]; lia. }
  rewrite <- Ei, <- Ef.
  split; [exact Hi |]. split; [exact Hf |]. split; [lia |].
  assert (Hrun := set_frequency_run w freq period div16 Hq). cbv zeta in Hrun.
  apply calls_of_app. unfold levels, m', after. rewrite Hrun. cbn [snd hw_log this].
  f_equal. unfold divs, wraps, per_slice, clkdiv_writes, wrap_writes. cbv zeta.
  rewrite Ei, Ef, (to_uint16_id (period - 1)) by uint16_lia.
  reflexivity.
Qed.

Lemma set_frequency_arguments_exact_witness :
  calls_of (set_frequency (Float32.of_Z 30000)) (after init (boot FAST_DECAY))
  = [pwm_set_clkdiv_int_frac_call 0 1 2;
     pwm_set_wrap_call 0 3599;
     pwm_set_gpio_level_call 0 0;
     pwm_set_gpio_level_call 1 0].
Proof.
  exact (proj2 (proj2 (proj2
           (set_frequency_arguments_exact (after init (boot FAST_DECAY))
              (Float32.of_Z 30000) 3600 18 eq_refl)))).
Defined.

(** ** Mutators that only move the levels *)

(** X11: [set_speed], [set_decay_mode], [stop] and [disable] each make
    exactly two peripheral calls, a level write to the positive pin and
    then one to the negative pin; none of them touches wrap, divider or
    pin function, and none changes the stored pins, period, frequency or
    configuration. *)
Theorem level_mutators_frame (w : World) (v : Float32.float) (d : DecayMode) :
  writes_levels_only (set_speed v) w
  /\ writes_levels_only (set_decay_mode d) w
  /\ writes_levels_only stop w
  /\ writes_levels_only disable w.
Proof.
  assert (Hdm : set_decay_mode d w
                = (tt, let m' := set_motor_decay_mode d (this w) in
                       {| this := m'; clk_sys_hz := clk_sys_hz w;
                          hw_log := hw_log w ++ level_writes m' (levels_of m') |})).
  { unfold set_decay_mode, bind, modify_this. rewrite update_pwm_run. reflexivity. }
  cbv zeta in Hdm.
  assert (Hss := set_speed_run w v). cbv zeta in Hss.
  assert (Hst : stop w = _) by (rewrite stop_run; apply set_speed_run). cbv zeta in Hst.
  assert (Hdi := disable_run w).
  unfold writes_levels_only, after. cbv zeta.
  split; [| split; [| split]].
  - rewrite Hss. cbn [snd this clk_sys_hz]. repeat apply conj; try reflexivity.
    do 2 eexists. apply calls_of_app. rewrite Hss. reflexivity.
  - rewrite Hdm. cbn [snd this clk_sys_hz]. repeat apply conj; try reflexivity.
    do 2 eexists. apply calls_of_app. rewrite Hdm. reflexivity.
  - rewrite Hst. cbn [snd this clk_sys_hz]. repeat apply conj; try reflexivity.
    do 2 eexists. apply calls_of_app. rewrite Hst. reflexivity.
  - rewrite Hdi. cbn [snd this clk_sys_hz]. repeat apply conj; try reflexivity.
    do 2 eexists. apply calls_of_app. rewrite Hdi. reflexivity.
Qed.

(** ** [stop] and [disable] *)

(** X12: [stop] and [disable] leave the same object: the stored speed is
    +0.0 and pins, configuration, period, frequency and decay mode are
    those from before the call, as is the clock.  [disable] writes level 0
    to both pins in every decay mode; [stop] writes (period, period) in
    SLOW_DECAY and (0, 0) for any other mode value, so the two make the
    same calls exactly when the mode is not SLOW_DECAY or the period is 0.
    A disabled motor is not marked as such: writing the decay mode it
    already has makes the calls of [stop]. *)
Theorem stop_and_disable (w : World) :
  is_uint16 (pwm_period (this w)) = true ->
  let m := this w in
  let ms := this (after stop w) in
  let md := this (after disable w) in
  ms = md
  /\ (motor_speed ms = S754_zero false /\ motor_speed md = S754_zero false)
  /\ (pin_pos md = pin_pos m /\ pin_neg md = pin_neg m /\ pwm_cfg md = pwm_cfg m
      /\ pwm_period md = pwm_period m /\ pwm_frequency md = pwm_frequency m
      /\ motor_decay_mode md = motor_decay_mode m)
  /\ (clk_sys_hz (after stop w) = clk_sys_hz w
      /\ clk_sys_hz (after disable w) = clk_sys_hz w)
  /\ calls_of disable w = level_writes m (0, 0)
  /\ calls_of stop w
     = level_writes m (if motor_decay_mode m =? SLOW_DECAY
                       then (pwm_period m, pwm_period m) else (0, 0))
  /\ (calls_of stop w = calls_of disable w
      <-> motor_decay_mode m <> SLOW_DECAY \/ pwm_period m = 0)
  /\ calls_of (set_decay_mode (motor_decay_mode m)) (after disable w) = calls_of stop w.
Proof.
  intros Hp m ms md. apply is_uint16_range in Hp. fold m in Hp.
  assert (Hd : signed_duty_cycle_of Float32.zero (pwm_period m) = 0)
    by (apply signed_duty_cycle_zero; exact Hp).
  assert (Hlv : forall m0, motor_speed m0 = Float32.zero -> pwm_period m0 = pwm_period m ->
                  motor_decay_mode m0 = motor_decay_mode m ->
                  levels_of m0 = if motor_decay_mode m =? SLOW_DECAY
                                 then (pwm_period m, pwm_period m) else (0, 0)).
  { intros m0 H1 H2 H3. rewrite levels_of_eq. cbv zeta. rewrite H1, H2, H3, Hd.
    cbn [Z.geb Z.compare]. rewrite Z.sub_0_r, (to_uint16_id (pwm_period m)) by exact Hp.
    reflexivity. }
  assert (Hdis : calls_of disable w = level_writes m (0, 0))
    by (apply calls_of_app; rewrite disable_run; reflexivity).
  assert (Hstop : calls_of stop w
                  = level_writes m (if motor_decay_mode m =? SLOW_DECAY
                                    then (pwm_period m, pwm_period m) else (0, 0))).
  { apply calls_of_app. rewrite stop_run, set_speed_run. cbn [snd hw_log].
    f_equal. match goal with |- context [levels_of ?x] =>
      rewrite (Hlv x eq_refl eq_refl eq_refl) end. reflexivity. }
  assert (Es : ms = set_motor_speed Float32.zero m)
    by (unfold ms, after; rewrite stop_run, set_speed_run; reflexivity).
  assert (Ed : md = set_motor_speed Float32.zero m)
    by (unfold md, after; rewrite disable_run; reflexivity).
  assert (Cs : clk_sys_hz (after stop w) = clk_sys_hz w)
    by (unfold after; rewrite stop_run, set_speed_run; reflexivity).
  assert (Cd : clk_sys_hz (after disable w) = clk_sys_hz w)
    by (unfold after; rewrite disable_run; reflexivity).
  split; [rewrite Es, Ed; reflexivity |].
  split; [rewrite Es, Ed; split; reflexivity |].
  split; [rewrite Ed; repeat split |].
  split; [split; assumption |].
  split; [exact Hdis |]. split; [exact Hstop |]. split.
  - rewrite Hdis, Hstop. unfold level_writes.
    destruct (Z.eqb_spec (motor_decay_mode m) SLOW_DECAY) as [E | E]; cbn [fst snd].
    + split.
      * intros H. injection H as H _. right. exact H.
      * intros [H | H]; [contradiction | rewrite H; reflexivity].
    + split; [intros _; left; exact E | reflexivity].
  - rewrite Hstop. apply calls_of_app. unfold after. rewrite disable_run. cbn [snd].
    unfold set_decay_mode, bind, modify_this. rewrite update_pwm_run.
    cbn [snd hw_log with_log this]. f_equal.
    match goal with |- context [levels_of ?x] =>
      rewrite (Hlv x eq_refl eq_refl eq_refl) end. reflexivity.
Qed.

Lemma stop_and_disable_witness :
  let w := after (init ;; set_speed (ratio 3 4))%motor (boot SLOW_DECAY) in
  motor_speed (this (after disable w)) = S754_zero false
  /\ calls_of disable w = [pwm_set_gpio_level_call 0 0; pwm_set_gpio_level_call 1 0]
  /\ calls_of stop w = [pwm_set_gpio_level_call 0 5000; pwm_set_gpio_level_call 1 5000].
Proof.
  split; [| split].
  - exact (proj2 (proj1 (proj2 (stop_and_disable
             (after (init ;; set_speed (ratio 3 4))%motor (boot SLOW_DECAY)) eq_refl)))).
  - exact (proj1 (proj2 (proj2 (proj2 (proj2 (stop_and_disable
             (after (init ;; set_speed (ratio 3 4))%motor (boot SLOW_DECAY)) eq_refl)))))).
  - exact (proj1 (proj2 (proj2 (proj2 (proj2 (proj2 (stop_and_disable
             (after (init ;; set_speed (ratio 3 4))%motor (boot SLOW_DECAY)) eq_refl))))))).
Defined.

(** ** Frequency and decay mode read back *)

(** X13: [get_frequency] after [set_frequency] returns the requested
    float itself (not the frequency the quantised divider and period
    realise) when the call succeeded, and the frequency stored before when
    it failed; the call succeeds exactly when the quantiser does.
    [get_decay_mode] after [set_decay_mode] returns the value written,
    whatever it is.  Neither call changes the speed [get_speed] returns,
    and the three getters change nothing. *)
Theorem frequency_and_mode_read_back (w : World) (freq : Float32.float) (d : DecayMode) :
  fst (get_frequency (after (set_frequency freq) w))
  = (if fst (set_frequency freq w) then freq else pwm_frequency (this w))
  /\ (fst (set_frequency freq w) = true
      <-> calculate_pwm_factors (clk_sys_hz w) freq <> None)
  /\ fst (get_decay_mode (after (set_decay_mode d) w)) = d
  /\ fst (get_speed (after (set_frequency freq) w)) = fst (get_speed w)
  /\ fst (get_speed (after (set_decay_mode d) w)) = fst (get_speed w)
  /\ after get_frequency w = w /\ after get_decay_mode w = w /\ after get_speed w = w.
Proof.
  assert (Hdm : this (after (set_decay_mode d) w) = set_motor_decay_mode d (this w)).
  { unfold after, set_decay_mode, bind, modify_this. rewrite update_pwm_run. reflexivity. }
  unfold get_frequency, get_decay_mode, get_speed, bind, get_this, ret. cbn [fst snd].
  rewrite Hdm.
  destruct (calculate_pwm_factors (clk_sys_hz w) freq) as [[period div16] |] eqn:Hq.
  - unfold after. rewrite (set_frequency_run w freq period div16 Hq). cbn [fst snd this].
    repeat apply conj; try reflexivity; [intros _; discriminate | destruct w; reflexivity ..].
  - unfold after. rewrite (set_frequency_fail w freq Hq). cbn [fst snd].
    repeat apply conj; try reflexivity;
      [intros H; discriminate H | intros H; contradiction | destruct w; reflexivity ..].
Qed.

(** ** The destructor *)

(** X14: the destructor makes two calls, setting the function of the
    positive and then of the negative pin to GPIO_FUNC_NULL.  It writes no
    PWM register: wrap, divider and levels of both slices stay as the
    last call left them. *)
Theorem Motor_delete_keeps_registers (w : World) :
  let m := this w in
  this (after Motor_delete w) = m
  /\ calls_of Motor_delete w
     = [gpio_set_function_call (pin_pos m) GPIO_FUNC_NULL;
        gpio_set_function_call (pin_neg m) GPIO_FUNC_NULL]
  /\ regs_of (after Motor_delete w) = regs_of w.
Proof.
  intros m.
  assert (Hrun : Motor_delete w
                 = (tt, with_log w (hw_log w ++
                          [gpio_set_function_call (pin_pos m) GPIO_FUNC_NULL;
                           gpio_set_function_call (pin_neg m) GPIO_FUNC_NULL]))).
  { unfold Motor_delete, bind, get_this, gpio_set_function, hw, with_log.
    cbn [fst snd this clk_sys_hz hw_log]. rewrite <- app_assoc. reflexivity. }
  unfold after. split; [rewrite Hrun; reflexivity |].
  split; [apply calls_of_app; rewrite Hrun; reflexivity |].
  rewrite Hrun. cbn [snd]. unfold regs_of, with_log. cbn [hw_log].
  rewrite apply_calls_app. reflexivity.
Qed.

(** ** The held channel of SLOW_DECAY across a frequency change *)

(** In SLOW_DECAY the level of the held pin is the period. *)
Lemma slow_decay_held_level (m : Motor) :
  motor_decay_mode m = SLOW_DECAY ->
  speed_in_range (motor_speed m) = true ->
  0 <= pwm_period m < 2 ^ 16 ->
  (speed_nonneg (motor_speed m) = true -> fst (levels_of m) = pwm_period m)
  /\ (speed_nonneg (motor_speed m) = false -> snd (levels_of m) = pwm_period m).
Proof.
  intros Hmode Hv Hp.
  destruct (signed_duty_cycle_spec _ _ Hv Hp) as (_ & _ & Hnn & Hneg & _).
  rewrite levels_of_eq. cbv zeta. rewrite Hmode. cbn [Z.eqb SLOW_DECAY Pos.eqb].
  destruct (Z.geb_spec (signed_duty_cycle_of (motor_speed m) (pwm_period m)) 0) as [Hge | Hlt];
    cbn [fst snd]; split; intros Hs.
  - apply to_uint16_id. exact Hp.
  - specialize (Hneg Hs).
    replace (signed_duty_cycle_of (motor_speed m) (pwm_period m)) with 0 by lia.
    rewrite Z.sub_0_r. apply to_uint16_id. exact Hp.
  - specialize (Hnn Hs). lia.
  - apply to_uint16_id. exact Hp.
Qed.

(** X10: the ordering of [set_frequency] does what its comment says.  Take
    a motor in SLOW_DECAY whose registers mirror the object (wrap =
    period - 1 on both slices, levels as the mapping gives them), with a
    speed in [-1.0, 1.0] and the two pins on different channels.  Then
    across a successful [set_frequency], before the first call and after
    each single call it makes, the level of the held pin (the positive one
    for a speed >= 0, the negative one otherwise) exceeds the wrap value
    of its slice: the held output never drops, whether the period grows or
    shrinks. *)
Theorem slow_decay_held_channel_stays_on
  (w : World) (freq : Float32.float) (period div16 : Z) :
  calculate_pwm_factors (clk_sys_hz w) freq = Some (period, div16) ->
  motor_decay_mode (this w) = SLOW_DECAY ->
  speed_in_range (motor_speed (this w)) = true ->
  channels_distinct (this w) = true ->
  timing_in_sync w -> levels_in_sync w ->
  throughout (fully_on (held_pin (this w))) (regs_of w) (calls_of (set_frequency freq) w).
Proof.
  intros Hq Hmode Hv Hcd (d0 & Hq0 & T1 & T2 & _ & _) [L1 L2].
  destruct (calculate_pwm_factors_range _ _ _ _ Hq) as [Hp _].
  destruct (calculate_pwm_factors_range _ _ _ _ Hq0) as [Hp0 _].
  unfold MAX_PWM_PERIOD in Hp, Hp0.
  assert (Hrun := set_frequency_run w freq period div16 Hq). cbv zeta in Hrun.
  rewrite (calls_of_app _ _ _ (f_equal (fun x => hw_log (snd x)) Hrun)).
  set (m := this w) in *.
  set (m' := set_pwm_frequency freq (set_pwm_period period m)) in *.
  destruct (slow_decay_held_level m Hmode Hv ltac:(uint16_lia)) as [Hold1 Hold2].
  destruct (slow_decay_held_level m' Hmode Hv ltac:(cbn; uint16_lia)) as [Hnew1 Hnew2].
  change (pwm_period m') with period in Hnew1, Hnew2.
  change (motor_speed m') with (motor_speed m) in Hnew1, Hnew2.
  destruct (levels_of m') as [a b]. cbn [fst snd] in Hnew1, Hnew2.
  unfold held_pin, clkdiv_writes, wrap_writes, level_writes, channels_distinct,
    top_of, level_of in *.
  cbv zeta. change (pin_pos m') with (pin_pos m). change (pin_neg m') with (pin_neg m).
  rewrite (to_uint16_id (period - 1)) by uint16_lia.
  set (r := regs_of w) in *. cbn [fst snd].
  remember (pwm_gpio_to_slice_num (pin_pos m)) as sp eqn:Esp.
  remember (pwm_gpio_to_slice_num (pin_neg m)) as sn eqn:Esn.
  remember (pwm_gpio_to_channel (pin_pos m)) as cp eqn:Ecp.
  remember (pwm_gpio_to_channel (pin_neg m)) as cn eqn:Ecn.
  remember (pwm_period m) as old eqn:Eold.
  clear Hrun Hq Hq0.
  apply negb_true_iff, andb_false_iff in Hcd.
  assert (Hcd' : sp <> sn \/ cp <> cn)
    by (destruct Hcd as [H | H]; apply Z.eqb_neq in H; [left | right]; exact H).
  clear Hcd.
  destruct (speed_nonneg (motor_speed m));
    [specialize (Hold1 eq_refl); specialize (Hnew1 eq_refl); clear Hold2 Hnew2
    |specialize (Hold2 eq_refl); specialize (Hnew2 eq_refl); clear Hold1 Hnew1];
    rewrite <- ?Esp, <- ?Esn, <- ?Ecp, <- ?Ecn;
    destruct (Z.gtb_spec period old) as [Hgt | Hle];
    destruct (Z.eqb_spec sn sp) as [Es | Es];
    cbn [app throughout apply_call fully_on top_of level_of reg_top reg_cc];
    unfold fully_on, top_of, level_of; cbn [reg_top reg_cc];
    rewrite <- ?Esp, <- ?Esn, <- ?Ecp, <- ?Ecn;
    repeat match goal with
           | |- context [Z.eqb ?x ?y] => destruct (Z.eqb_spec x y)
           end;
    cbn [andb]; repeat split; lia.
Qed.

Lemma slow_decay_held_channel_stays_on_witness :
  let w := after (init ;; set_speed (ratio (-3) 4))%motor (boot SLOW_DECAY) in
  timing_in_sync w
  /\ levels_in_sync w
  /\ calls_of (set_frequency (Float32.of_Z 20000)) w
     = [pwm_set_clkdiv_int_frac_call 0 1 0;
        pwm_set_gpio_level_call 0 1563;
        pwm_set_gpio_level_call 1 6250;
        pwm_set_wrap_call 0 6249]
  /\ throughout (fully_on 1) (regs_of w)
       (calls_of (set_frequency (Float32.of_Z 20000)) w).
Proof.
  intros w.
  assert (Ht : timing_in_sync w) by (exists 16; vm_compute; repeat split).
  assert (Hl : levels_in_sync w) by (vm_compute; split; reflexivity).
  split; [exact Ht |]. split; [exact Hl |]. split; [vm_compute; reflexivity |].
  exact (slow_decay_held_channel_stays_on w (Float32.of_Z 20000) 6250 16
           eq_refl eq_refl eq_refl eq_refl Ht Hl).
Defined.
